(** * A shallow embedding of [train.py] (class [ModelTrainer])

    The trainer object [self] becomes an explicit record that is threaded
    through an exception monad.  Everything the trainer merely calls
    (the network, the optimiser, the data loaders, the plateau reducer) is an
    interface, [Collaborators]; results are stated for every implementation of
    it.  Tensor and float values are idealised as exact rationals extended
    with the IEEE specials ([xfloat]); rounding is not modelled. *)

From Stdlib Require Import ZArith QArith Lia.
From stdpp Require Import gmap strings list.

(** ** Python values and exceptions *)

Inductive exn :=
| ZeroDivisionError
| AttributeError
| UnboundLocalError
| KeyError
| TypeError
| ValueError
| PyException.

Inductive result (A : Type) :=
| Ok (a : A)
| Raise (e : exn).
Arguments Ok {A} a.
Arguments Raise {A} e.

(** A float, Python's or the content of a 0-dimensional tensor. *)
Inductive xfloat :=
| Fin (q : Q)
| PInf
| NInf
| NaN.

(** [a >= b] on floats; every comparison with [NaN] is false. *)
Definition xge (a b : xfloat) : bool :=
  match a, b with
  | NaN, _ | _, NaN => false
  | PInf, _ => true
  | _, NInf => true
  | Fin x, Fin y => Qle_bool y x
  | Fin _, PInf => false
  | NInf, _ => false
  end.

(** Values stored in the JSON log. *)
Inductive pyv :=
| PNone
| PInt (z : Z)
| PFloat (x : xfloat).

Definition of_epoch (epoch : option Z) : pyv :=
  match epoch with
  | None => PNone
  | Some e => PInt e
  end.

(** An entry of the logger dictionary: a series of [[step, value]] pairs or a
    scalar summary field. *)
Inductive lval :=
| LList (l : list (pyv * pyv))
| LVal (v : pyv).

(** ["%d" % v] and ["%0.1f" % v]. *)
Definition fmt_d (v : pyv) : result unit :=
  match v with
  | PInt _ => Ok tt
  | PFloat (Fin _) => Ok tt
  | PFloat _ => Raise ValueError
  | PNone => Raise TypeError
  end.

Definition fmt_f (v : pyv) : result unit :=
  match v with
  | PNone => Raise TypeError
  | _ => Ok tt
  end.

(** Modelled from the spec: [utils.convert_for_print] is not part of the
    sources at hand.  The spec has the best record updated to the accuracy just
    computed and the reported numbers equal to the computed ones, so the
    conversion (tensor to Python number) keeps the value. *)
Definition convert_for_print (x : xfloat) : xfloat := x.

(** ** Configuration: the fields of [args] the trainer reads *)

Module Args.
Record t := {
  eval : bool;
  eval_checkpoint : string;
  optimiser : string;
  learning_rate : Q;
  lr_scheduler : bool;
  lr_schedule : list Z;
  lr_decay_factor : Q;
  lr_reducer : bool;
  filelogger : bool;
  tensorboard : bool;
  log_interval : Z;
  epochs : Z;
  checkpoint_save_interval : Z;
  exp_name : string
}.
End Args.

(** ** Batches *)

Inductive Split := Val | Test.

Definition is_test (split : Split) : bool :=
  match split with
  | Test => true
  | Val => false
  end.

(** [n_batches and (batch_idx >= n_batches)]: [None] and [0] are falsy. *)
Definition cap_reached (n_batches : option Z) (batch_idx : Z) : bool :=
  match n_batches with
  | None => false
  | Some n => negb (n =? 0)%Z && (n <=? batch_idx)%Z
  end.

(** Index of the first maximal entry, as [Tensor.max(1)[1]] picks it.  [best]
    is the running maximum and [besti] its position.  The network gives every
    row at least one class score. *)
Fixpoint argmax_from (best : Q) (besti i : nat) (l : list Q) : nat :=
  match l with
  | [] => besti
  | x :: l' =>
      if Qle_bool x best then argmax_from best besti (S i) l'
      else argmax_from x i (S i) l'
  end.

Definition argmax (l : list Q) : nat :=
  match l with
  | [] => 0
  | x :: l' => argmax_from x 0 1 l'
  end.

Definition Qsum (l : list Q) : Q := foldr Qplus 0%Q l.

(** The accumulators of the evaluation loops start as the Python integer [0]
    and turn into 0-dimensional tensors at the first [+=] with a tensor. *)
Inductive num (A : Type) :=
| PyNum (a : A)
| Tensor (a : A).
Arguments PyNum {A} a.
Arguments Tensor {A} a.

(** [acc += t] where [t] is a tensor: the result is a tensor. *)
Definition add_tensor {A} (plus : A -> A -> A) (acc : num A) (t : A) : num A :=
  match acc with
  | PyNum a => Tensor (plus a t)
  | Tensor a => Tensor (plus a t)
  end.

Definition num_val {A} (acc : num A) : A :=
  match acc with
  | PyNum a => a
  | Tensor a => a
  end.

(** [100.0 * correct]: an integer count becomes a float of the same kind. *)
Definition times_100 (acc : num Z) : num Q :=
  match acc with
  | PyNum z => PyNum (100 * inject_Z z)%Q
  | Tensor z => Tensor (100 * inject_Z z)%Q
  end.

(** [acc / n] for a Python integer [n]: Python numbers raise on a zero
    divisor, tensors follow IEEE and give [nan] or an infinity. *)
Definition num_div (acc : num Q) (n : Z) : result xfloat :=
  match acc with
  | PyNum q =>
      if (n =? 0)%Z then Raise ZeroDivisionError else Ok (Fin (q / inject_Z n))
  | Tensor q =>
      if (n =? 0)%Z then
        Ok (if Qeq_bool q 0 then NaN else if Qle_bool 0 q then PInf else NInf)
      else Ok (Fin (q / inject_Z n))
  end.

(** ** The collaborators *)

(** One example of a batch.  A batch is the triple [(images, targets,
    indices)] of tensors with a common first dimension; it is kept as the list
    of its rows. *)
Record example (image : Type) := {
  ex_image : image;
  ex_target : Z;
  ex_index : Z
}.
Arguments ex_image {image} e.
Arguments ex_target {image} e.
Arguments ex_index {image} e.

(** [self.dataloader]: the flag the driver reads and writes, and whatever else
    the loader object holds. *)
Record DataLoader (pool : Type) := {
  stop_label_generation : bool;
  internals : pool
}.
Arguments stop_label_generation {pool} d.
Arguments internals {pool} d.

Record Collaborators := {
  image : Type;
  (** the weights of [self.model], with the buffers of [self.opt] *)
  params : Type;
  (** the state of [ReduceLROnPlateau] *)
  plateau : Type;
  pool : Type;
  (** [self.model(images)] in evaluation mode, row by row:
      [(logits, unnormalised_scores)] *)
  forward : params -> image -> list Q * list Q;
  (** [F.cross_entropy] of one row *)
  cross_entropy : list Q -> Z -> Q;
  (** lines 119-131 but for the counter: [train()], [zero_grad()], forward,
      [criterion], [backward()], [opt.step()] at learning rate [lr]; gives the
      new weights and the batch loss *)
  train_step : Q -> params -> list (example image) -> params * Q;
  (** [self.lr_reducer.step(val_loss)] on the optimiser's learning rate *)
  plateau_step : plateau -> xfloat -> Q -> plateau * Q;
  train_loader : DataLoader pool -> list (list (example image));
  val_loader : DataLoader pool -> list (list (example image));
  test_loader : DataLoader pool -> list (list (example image));
  unsupervised_train_loader : DataLoader pool -> list (list (example image));
  (** [len(self.dataloader.train_loader.dataset)] *)
  train_dataset_len : DataLoader pool -> Z;
  ssl_init_epoch : DataLoader pool -> list Z -> list Z -> DataLoader pool
}.

(** ** Effects *)

Inductive line :=
| TrainLine (epoch examples_this_epoch dataset_len : Z) (epoch_progress train_loss : Q)
    (val_loss val_acc : xfloat)
| EvalLine (split : Split) (epoch : Z) (loss : xfloat) (correct n_examples : Z)
    (acc : xfloat)
| BestLine (split : Split) (best_epoch : Z) (best_accuracy : xfloat)
| LabelLine (loss : xfloat) (correct n_examples : Z) (acc : xfloat)
| SavedLine (epoch : Z).

Inductive event :=
| OptStep (epoch : Z) (lr : Q)
| PlateauStep (val_loss : xfloat) (lr : Q)
| SchedulerStep (last_epoch : Z) (lr : Q)
| SslInitEpoch (indices labels : list Z)
| TorchSave (epoch : Z)
| Stdout (l : line)
| AddScalar (tag : string) (value : pyv) (step : option Z)
| AddText (tag : string)
| WriterClose
| WriteLogToJson
| Tic
| TimeSinceInit.

(** ** The monad of methods: a state and exceptions *)

Definition M (St A : Type) : Type := St -> result (A * St).

Definition ret {St A} (a : A) : M St A := fun s => Ok (a, s).

Definition bind {St A B} (m : M St A) (k : A -> M St B) : M St B :=
  fun s =>
    match m s with
    | Ok (a, s') => k a s'
    | Raise e => Raise e
    end.

Definition raise {St A} (e : exn) : M St A := fun _ => Raise e.

Definition lift {St A} (r : result A) : M St A :=
  fun s =>
    match r with
    | Ok a => Ok (a, s)
    | Raise e => Raise e
    end.

Definition get {St} : M St St := fun s => Ok (s, s).

Definition modify {St} (f : St -> St) : M St unit := fun s => Ok (tt, f s).

(** Reading an attribute that may be absent. *)
Definition attr {St A} (field : St -> option A) : M St A :=
  fun s =>
    match field s with
    | Some a => Ok (a, s)
    | None => Raise AttributeError
    end.

Definition when {St} (b : bool) (m : M St unit) : M St unit :=
  if b then m else ret tt.

Notation "x <- m ;; k" := (bind m (fun x => k))
  (at level 100, m at next level, right associativity).
Notation "m ;; k" := (bind m (fun _ => k))
  (at level 100, right associativity).

(** ** The trainer object *)

Section Trainer.

Variable W : Collaborators.
Variable args : Args.t.

Definition batch : Type := list (example (image W)).

(** The attributes of [self].  Those that [__init__] creates only in training
    mode are optional: reading an absent one raises [AttributeError]. *)
Record ModelTrainer := {
  model : params W;
  dataloader : DataLoader (pool W);
  best_test_accuracy : xfloat;
  best_test_epoch : option Z;
  (** learning rate of [self.opt] *)
  opt : option Q;
  (** [last_epoch] of the [MultiStepLR] schedule *)
  lr_scheduler : option Z;
  lr_reducer : option (plateau W);
  logger : option (gmap string lval);
  writer : option unit;
  iter : option Z;
  (** what the trainer has done to the outside world so far, oldest first *)
  effects : list event
}.

Definition set_model (v : params W) (s : ModelTrainer) : ModelTrainer :=
  {| model := v; dataloader := dataloader s;
     best_test_accuracy := best_test_accuracy s; best_test_epoch := best_test_epoch s;
     opt := opt s; lr_scheduler := lr_scheduler s; lr_reducer := lr_reducer s;
     logger := logger s; writer := writer s; iter := iter s; effects := effects s |}.

Definition set_dataloader (v : DataLoader (pool W)) (s : ModelTrainer) : ModelTrainer :=
  {| model := model s; dataloader := v;
     best_test_accuracy := best_test_accuracy s; best_test_epoch := best_test_epoch s;
     opt := opt s; lr_scheduler := lr_scheduler s; lr_reducer := lr_reducer s;
     logger := logger s; writer := writer s; iter := iter s; effects := effects s |}.

Definition set_best_test_accuracy (v : xfloat) (s : ModelTrainer) : ModelTrainer :=
  {| model := model s; dataloader := dataloader s;
     best_test_accuracy := v; best_test_epoch := best_test_epoch s;
     opt := opt s; lr_scheduler := lr_scheduler s; lr_reducer := lr_reducer s;
     logger := logger s; writer := writer s; iter := iter s; effects := effects s |}.

Definition set_best_test_epoch (v : option Z) (s : ModelTrainer) : ModelTrainer :=
  {| model := model s; dataloader := dataloader s;
     best_test_accuracy := best_test_accuracy s; best_test_epoch := v;
     opt := opt s; lr_scheduler := lr_scheduler s; lr_reducer := lr_reducer s;
     logger := logger s; writer := writer s; iter := iter s; effects := effects s |}.

Definition set_opt (v : option Q) (s : ModelTrainer) : ModelTrainer :=
  {| model := model s; dataloader := dataloader s;
     best_test_accuracy := best_test_accuracy s; best_test_epoch := best_test_epoch s;
     opt := v; lr_scheduler := lr_scheduler s; lr_reducer := lr_reducer s;
     logger := logger s; writer := writer s; iter := iter s; effects := effects s |}.

Definition set_lr_scheduler (v : option Z) (s : ModelTrainer) : ModelTrainer :=
  {| model := model s; dataloader := dataloader s;
     best_test_accuracy := best_test_accuracy s; best_test_epoch := best_test_epoch s;
     opt := opt s; lr_scheduler := v; lr_reducer := lr_reducer s;
     logger := logger s; writer := writer s; iter := iter s; effects := effects s |}.

Definition set_lr_reducer (v : option (plateau W)) (s : ModelTrainer) : ModelTrainer :=
  {| model := model s; dataloader := dataloader s;
     best_test_accuracy := best_test_accuracy s; best_test_epoch := best_test_epoch s;
     opt := opt s; lr_scheduler := lr_scheduler s; lr_reducer := v;
     logger := logger s; writer := writer s; iter := iter s; effects := effects s |}.

Definition set_logger (v : option (gmap string lval)) (s : ModelTrainer) : ModelTrainer :=
  {| model := model s; dataloader := dataloader s;
     best_test_accuracy := best_test_accuracy s; best_test_epoch := best_test_epoch s;
     opt := opt s; lr_scheduler := lr_scheduler s; lr_reducer := lr_reducer s;
     logger := v; writer := writer s; iter := iter s; effects := effects s |}.

Definition set_iter (v : option Z) (s : ModelTrainer) : ModelTrainer :=
  {| model := model s; dataloader := dataloader s;
     best_test_accuracy := best_test_accuracy s; best_test_epoch := best_test_epoch s;
     opt := opt s; lr_scheduler := lr_scheduler s; lr_reducer := lr_reducer s;
     logger := logger s; writer := writer s; iter := v; effects := effects s |}.

Definition set_effects (v : list event) (s : ModelTrainer) : ModelTrainer :=
  {| model := model s; dataloader := dataloader s;
     best_test_accuracy := best_test_accuracy s; best_test_epoch := best_test_epoch s;
     opt := opt s; lr_scheduler := lr_scheduler s; lr_reducer := lr_reducer s;
     logger := logger s; writer := writer s; iter := iter s; effects := v |}.

Abbreviation Method := (M ModelTrainer).

Definition emit (ev : event) : Method unit :=
  modify (fun s => set_effects (effects s ++ [ev]) s).

(** [self.logger[key] = v] *)
Definition logger_set (key : string) (v : pyv) : Method unit :=
  lg <- attr logger ;;
  modify (set_logger (Some (<[key := LVal v]> lg))).

(** [self.logger[key].append(entry)]; the entry is evaluated after the
    method lookup. *)
Definition logger_append (key : string) (entry : result (pyv * pyv)) : Method unit :=
  lg <- attr logger ;;
  match lg !! key with
  | None => raise KeyError
  | Some (LVal _) => raise AttributeError
  | Some (LList l) =>
      e <- lift entry ;;
      modify (set_logger (Some (<[key := LList (l ++ [e])]> lg)))
  end.

(** [self.writer.add_scalar(tag, value, step)] *)
Definition add_scalar (tag : string) (value : result pyv) (step : option Z) : Method unit :=
  attr writer ;;
  v <- lift value ;;
  emit (AddScalar tag v step).

(** *** The evaluation loop *)

Definition pred (theta : params W) (e : example (image W)) : Z :=
  Z.of_nat (argmax (fst (forward W theta (ex_image e)))).

(** [F.cross_entropy(unnormalised_scores, targets, reduction="sum")] *)
Definition batch_loss (theta : params W) (b : batch) : Q :=
  Qsum (map (fun e => cross_entropy W (snd (forward W theta (ex_image e))) (ex_target e)) b).

(** [pred.eq(targets).sum()] *)
Definition batch_correct (theta : params W) (b : batch) : Z :=
  Z.of_nat (length (List.filter (fun e => (pred theta e =? ex_target e)%Z) b)).

Record tally := {
  loss_sum : num Q;
  correct : num Z;
  n_examples : Z
}.

Definition tally0 : tally :=
  {| loss_sum := PyNum 0%Q; correct := PyNum 0%Z; n_examples := 0%Z |}.

Definition tally_batch (theta : params W) (b : batch) (t : tally) : tally :=
  {| loss_sum := add_tensor Qplus (loss_sum t) (batch_loss theta b);
     correct := add_tensor Z.add (correct t) (batch_correct theta b);
     n_examples := (n_examples t + Z.of_nat (length b))%Z |}.

(** The [for batch_idx, batch in enumerate(loader)] loop of [evaluate], from
    position [batch_idx] on.  [it] is what the loader has still to give; the
    result carries what is left of it when the loop ends. *)
Fixpoint eval_loop (theta : params W) (n_batches : option Z) (batch_idx : Z)
    (it : list batch) (t : tally) : tally * list batch :=
  match it with
  | [] => (t, [])
  | b :: rest =>
      let t' := tally_batch theta b t in
      if cap_reached n_batches batch_idx then (t', rest)
      else eval_loop theta n_batches (batch_idx + 1) rest t'
  end.

(** [loss /= n_examples; acc = 100.0 * correct / n_examples] *)
Definition finalize (t : tally) : result (xfloat * xfloat) :=
  match num_div (loss_sum t) (n_examples t) with
  | Raise e => Raise e
  | Ok loss =>
      match num_div (times_100 (correct t)) (n_examples t) with
      | Raise e => Raise e
      | Ok acc => Ok (loss, acc)
      end
  end.

Definition loader_of (split : Split) (d : DataLoader (pool W)) : list batch :=
  match split with
  | Val => val_loader W d
  | Test => test_loader W d
  end.

Definition evaluate (split : Split) (epoch : option Z) (verbose : bool)
    (n_batches : option Z) : Method (xfloat * xfloat) :=
  s <- get ;;
  let t := fst (eval_loop (model s) n_batches 0 (loader_of split (dataloader s)) tally0) in
  la <- lift (finalize t) ;;
  let '(loss, acc) := la in
  when (is_test split && xge acc (best_test_accuracy s))
    (modify (set_best_test_accuracy (convert_for_print acc)) ;;
     modify (set_best_test_epoch epoch) ;;
     when (Args.filelogger args)
       (logger_set "best_epoch" (of_epoch epoch) ;;
        logger_set "best_test_accuracy" (PFloat (convert_for_print acc)))) ;;
  if verbose then
    epoch <- match epoch with
             | None => modify (set_best_test_epoch (Some 0%Z)) ;; ret 0%Z
             | Some e => ret e
             end ;;
    let loss := convert_for_print loss in
    let acc := convert_for_print acc in
    emit (Stdout (EvalLine split epoch loss (num_val (correct t)) (n_examples t) acc)) ;;
    s1 <- get ;;
    best_epoch <- match best_test_epoch s1 with
                  | None => raise TypeError
                  | Some e => ret e
                  end ;;
    emit (Stdout (BestLine split best_epoch (best_test_accuracy s1))) ;;
    when (Args.filelogger args)
      (logger_append "test_loss" (Ok (PInt epoch, PFloat loss)) ;;
       logger_append "test_accuracy" (Ok (PInt epoch, PFloat acc))) ;;
    when (Args.tensorboard args)
      (add_scalar "Loss_at_Epoch/Test" (Ok (PFloat loss)) (Some epoch) ;;
       add_scalar "Accuracy_at_Epoch/Test" (Ok (PFloat acc)) (Some epoch) ;;
       add_scalar "Accuracy_at_Epoch/Best_Test_Accuracy"
         (Ok (PFloat (best_test_accuracy s1))) (best_test_epoch s1)) ;;
    ret (loss, acc)
  else ret (loss, acc).

(** *** Pseudo-label generation *)

(** The loop of [generate_labels_for_ssl]: the tally of [evaluate], and the
    two lists extended batch by batch. *)
Fixpoint label_loop (theta : params W) (n_batches : option Z) (batch_idx : Z)
    (it : list batch) (t : tally) (predictions_indices predictions_labels : list Z)
    : tally * (list Z * list Z) * list batch :=
  match it with
  | [] => (t, (predictions_indices, predictions_labels), [])
  | b :: rest =>
      let t' := tally_batch theta b t in
      let predictions_indices := predictions_indices ++ map ex_index b in
      let predictions_labels := predictions_labels ++ map (pred theta) b in
      if cap_reached n_batches batch_idx
      then (t', (predictions_indices, predictions_labels), rest)
      else label_loop theta n_batches (batch_idx + 1) rest t'
             predictions_indices predictions_labels
  end.

Definition generate_labels_for_ssl (epoch : Z) (n_batches : option Z) (verbose : bool)
    : Method (list Z * list Z) :=
  s <- get ;;
  let r := label_loop (model s) n_batches 0
             (unsupervised_train_loader W (dataloader s)) tally0 [] [] in
  let t := fst (fst r) in
  la <- lift (finalize t) ;;
  let '(loss, acc) := la in
  when verbose
    (let loss := convert_for_print loss in
     let acc := convert_for_print acc in
     let correct := num_val (correct t) in
     emit (Stdout (LabelLine loss correct (n_examples t) acc)) ;;
     when (Args.filelogger args)
       (logger_append "ssl_loss" (Ok (PInt epoch, PFloat loss)) ;;
        logger_append "ssl_accuracy" (Ok (PInt epoch, PFloat acc)) ;;
        logger_append "ssl_correct" (Ok (PInt epoch, PInt correct))) ;;
     when (Args.tensorboard args)
       (add_scalar "SSL_Loss_at_Epoch" (Ok (PFloat loss)) (Some epoch) ;;
        add_scalar "SSL_Accuracy_at_Epoch" (Ok (PFloat acc)) (Some epoch) ;;
        add_scalar "SSL_Correct_Labels_at_Epoch" (Ok (PInt correct)) (Some epoch))) ;;
  ret (snd (fst r)).

(** *** One training epoch *)

(** The locals of [train_val] that are bound only on some paths. *)
Record locals := {
  train_loss : option Q;
  val_metrics : option (xfloat * xfloat)
}.

Definition unbound {A} (v : option A) : result A :=
  match v with
  | Some a => Ok a
  | None => Raise UnboundLocalError
  end.

(** The body of the [if batch_idx % self.args.log_interval == 0] branch. *)
Definition log_progress (epoch batch_idx : Z) (n_images n_loader : nat) (loss : Q)
    : Method locals :=
  vm <- evaluate Val None false (Some 4%Z) ;;
  let '(val_loss, val_acc) := vm in
  let train_loss := loss in
  let val_loss := convert_for_print val_loss in
  let val_acc := convert_for_print val_acc in
  s <- get ;;
  when (Args.filelogger args)
    (logger_append "train_loss_per_iter"
       (Ok (of_epoch (iter s), PFloat (Fin train_loss))) ;;
     logger_append "val_loss_per_iter" (Ok (of_epoch (iter s), PFloat val_loss)) ;;
     logger_append "val_accuracy_per_iter" (Ok (of_epoch (iter s), PFloat val_acc))) ;;
  when (Args.tensorboard args)
    (add_scalar "Loss_at_Iter/Train" (Ok (PFloat (Fin train_loss))) (iter s) ;;
     add_scalar "Loss_at_Iter/Val" (Ok (PFloat val_loss)) (iter s) ;;
     add_scalar "Accuracy_at_Iter/Val" (Ok (PFloat val_acc)) (iter s)) ;;
  let examples_this_epoch := (batch_idx * Z.of_nat n_images)%Z in
  let epoch_progress := (100 * inject_Z batch_idx / inject_Z (Z.of_nat n_loader))%Q in
  emit (Stdout (TrainLine epoch examples_this_epoch
                  (train_dataset_len W (dataloader s)) epoch_progress
                  train_loss val_loss val_acc)) ;;
  ret {| train_loss := Some train_loss; val_metrics := Some (val_loss, val_acc) |}.

(** The [for batch_idx, batch in enumerate(self.dataloader.train_loader)] loop
    of [train_val] from position [batch_idx] on. *)
Fixpoint train_loop (epoch : Z) (n_loader : nat) (batch_idx : Z) (it : list batch)
    (l : locals) : Method locals :=
  match it with
  | [] => ret l
  | b :: rest =>
      lr <- attr opt ;;
      i <- attr iter ;;
      modify (set_iter (Some (i + 1)%Z)) ;;
      s <- get ;;
      let '(theta, loss) := train_step W lr (model s) b in
      modify (set_model theta) ;;
      emit (OptStep epoch lr) ;;
      l' <- (if (Args.log_interval args =? 0)%Z then raise ZeroDivisionError
             else if (batch_idx mod Args.log_interval args =? 0)%Z
                  then log_progress epoch batch_idx (length b) n_loader loss
                  else ret l) ;;
      train_loop epoch n_loader (batch_idx + 1) rest l'
  end.

Definition train_val (epoch : Z) : Method unit :=
  s <- get ;;
  let loader := train_loader W (dataloader s) in
  l <- train_loop epoch (length loader) 0 loader
         {| train_loss := None; val_metrics := None |} ;;
  vm <- (if Args.lr_reducer args then
           vm <- evaluate Val None false None ;;
           r <- attr lr_reducer ;;
           lr <- attr opt ;;
           let '(r', lr') := plateau_step W r (fst vm) lr in
           modify (set_lr_reducer (Some r')) ;;
           modify (set_opt (Some lr')) ;;
           emit (PlateauStep (fst vm) lr') ;;
           ret (Some vm)
         else ret (val_metrics l)) ;;
  vm <- lift (unbound vm) ;;
  let val_loss := convert_for_print (fst vm) in
  let val_acc := convert_for_print (snd vm) in
  let train_loss := match unbound (train_loss l) with
                    | Ok q => Ok (PFloat (Fin q))
                    | Raise e => Raise e
                    end in
  let pair_with (v : result pyv) :=
    match v with
    | Ok x => Ok (PInt epoch, x)
    | Raise e => Raise e
    end in
  when (Args.filelogger args)
    (logger_append "train_loss_per_epoch" (pair_with train_loss) ;;
     logger_append "val_loss_per_epoch" (Ok (PInt epoch, PFloat val_loss)) ;;
     logger_append "val_accuracy_per_epoch" (Ok (PInt epoch, PFloat val_acc))) ;;
  when (Args.tensorboard args)
    (add_scalar "Loss_at_Epoch/Train" train_loss (Some epoch) ;;
     add_scalar "Loss_at_Epoch/Val" (Ok (PFloat val_loss)) (Some epoch) ;;
     add_scalar "Accuracy_at_Epoch/Val" (Ok (PFloat val_acc)) (Some epoch)).

(** *** The step-wise schedule *)

(** [torch.optim.lr_scheduler.MultiStepLR]: the schedule counts its own calls
    in [last_epoch] (0 once constructed) and, when a call brings the counter
    onto a milestone, multiplies the optimiser's learning rate by
    [gamma ** k], [k] being how often the milestone is listed. *)
Definition multistep_lr (last_epoch : Z) (lr : Q) : Q :=
  match length (List.filter (Z.eqb last_epoch) (Args.lr_schedule args)) with
  | O => lr
  | S k => (lr * Args.lr_decay_factor args ^ Z.of_nat (S k))%Q
  end.

(** [self.lr_scheduler.step()] *)
Definition lr_scheduler_step : Method unit :=
  last_epoch <- attr lr_scheduler ;;
  lr <- attr opt ;;
  let last_epoch := (last_epoch + 1)%Z in
  let lr := multistep_lr last_epoch lr in
  modify (set_lr_scheduler (Some last_epoch)) ;;
  modify (set_opt (Some lr)) ;;
  emit (SchedulerStep last_epoch lr).

(** *** The drivers *)

(** [if epoch % self.args.checkpoint_save_interval == 0: print; torch.save]:
    the file written is named after [exp_name] and the epoch. *)
Definition save_checkpoint (epoch : Z) : Method unit :=
  if (Args.checkpoint_save_interval args =? 0)%Z then raise ZeroDivisionError
  else when (epoch mod Args.checkpoint_save_interval args =? 0)%Z
         (emit (Stdout (SavedLine epoch)) ;;
          emit (TorchSave epoch)).

(** A [for epoch in ...] loop whose body may rebind a local. *)
Fixpoint for_each {A} (body : Z -> A -> Method A) (epochs : list Z) (a : A) : Method A :=
  match epochs with
  | [] => ret a
  | epoch :: rest =>
      a' <- body epoch a ;;
      for_each body rest a'
  end.

(** The closing lines shared by the two drivers. *)
Definition finish : Method unit :=
  when (Args.tensorboard args)
    (when (Args.filelogger args)
       (lg <- attr logger ;;
        match lg !! "best_epoch", lg !! "best_test_accuracy" with
        | None, _ | _, None => raise KeyError
        | Some (LVal e), Some (LVal b) => lift (fmt_d e) ;; lift (fmt_f b)
        | _, _ => raise TypeError
        end ;;
        attr writer ;;
        emit (AddText "Best Test Performance")) ;;
     attr writer ;;
     emit WriterClose) ;;
  when (Args.filelogger args)
    (attr logger ;;
     emit WriteLogToJson) ;;
  emit TimeSinceInit.

(** One turn of the loop of [train_val_test]. *)
Definition train_val_test_epoch (epoch : Z) (_ : unit) : Method unit :=
  train_val epoch ;;
  evaluate Test (Some epoch) true None ;;
  when (Args.lr_scheduler args) lr_scheduler_step ;;
  save_checkpoint epoch ;;
  emit Tic.

Definition epoch_range : list Z := seqZ 1 (Args.epochs args).

Definition train_val_test : Method unit :=
  modify (set_iter (Some 0%Z)) ;;
  for_each train_val_test_epoch epoch_range tt ;;
  finish.

Definition set_stop_label_generation (v : bool) (s : ModelTrainer) : ModelTrainer :=
  set_dataloader
    {| stop_label_generation := v; internals := internals (dataloader s) |} s.

(** One turn of the loop of [ssl_train_val_test]; the local pair
    [predictions_indices, predictions_labels] goes in and out. *)
Definition ssl_epoch (epoch : Z) (predictions : list Z * list Z)
    : Method (list Z * list Z) :=
  s <- get ;;
  when (negb (stop_label_generation (dataloader s)))
    (modify (set_dataloader
               (ssl_init_epoch W (dataloader s) (fst predictions) (snd predictions))) ;;
     emit (SslInitEpoch (fst predictions) (snd predictions))) ;;
  train_val epoch ;;
  evaluate Test (Some epoch) true None ;;
  s <- get ;;
  predictions <- (if negb (stop_label_generation (dataloader s))
                  then generate_labels_for_ssl epoch (Some 4%Z) true
                  else ret predictions) ;;
  when (Args.lr_scheduler args) lr_scheduler_step ;;
  save_checkpoint epoch ;;
  emit Tic ;;
  ret predictions.

Definition ssl_train_val_test : Method unit :=
  modify (set_iter (Some 0%Z)) ;;
  modify (set_stop_label_generation false) ;;
  for_each ssl_epoch epoch_range ([], []) ;;
  finish.

(** *** Construction *)

Definition empty_logger : gmap string lval :=
  <["train_loss_per_iter" := LList []]>
  (<["train_loss_per_epoch" := LList []]>
  (<["val_loss_per_iter" := LList []]>
  (<["val_loss_per_epoch" := LList []]>
  (<["val_accuracy_per_iter" := LList []]>
  (<["val_accuracy_per_epoch" := LList []]>
  (<["test_loss" := LList []]>
  (<["test_accuracy" := LList []]>
  (<["best_epoch" := LVal (PInt 0)]>
  (<["best_test_accuracy" := LVal (PFloat (Fin 0))]>
  (<["ssl_loss" := LList []]>
  (<["ssl_accuracy" := LList []]>
  (<["ssl_correct" := LList []]> ∅)))))))))))).

(** [ModelTrainer(args)] for the two neural regimes.  [theta] is the network
    as constructed (or as read from [eval_checkpoint]), [d] the data loader and
    [r] the fresh plateau reducer. *)
Definition init (theta : params W) (d : DataLoader (pool W)) (r : plateau W)
    : result ModelTrainer :=
  if Args.eval args && String.eqb (Args.eval_checkpoint args) "" then Raise ValueError
  else
    let s := {| model := theta; dataloader := d;
                best_test_accuracy := Fin 0; best_test_epoch := Some 0%Z;
                opt := None; lr_scheduler := None; lr_reducer := None;
                logger := None; writer := None; iter := None; effects := [] |} in
    if Args.eval args then Ok s
    else if String.eqb (Args.optimiser args) "sgd" || String.eqb (Args.optimiser args) "adam"
    then
      Ok {| model := theta; dataloader := d;
            best_test_accuracy := Fin 0; best_test_epoch := Some 0%Z;
            opt := Some (if Args.lr_scheduler args
                         then multistep_lr 0 (Args.learning_rate args)
                         else Args.learning_rate args);
            lr_scheduler := if Args.lr_scheduler args then Some 0%Z else None;
            lr_reducer := if Args.lr_reducer args then Some r else None;
            logger := if Args.filelogger args then Some empty_logger else None;
            writer := if Args.tensorboard args then Some tt else None;
            iter := None;
            effects := if Args.tensorboard args then [AddText "Arguments"] else [] |}
    else Raise PyException.

End Trainer.

Arguments model {W} m.
Arguments dataloader {W} m.
Arguments best_test_accuracy {W} m.
Arguments best_test_epoch {W} m.
Arguments opt {W} m.
Arguments lr_scheduler {W} m.
Arguments lr_reducer {W} m.
Arguments logger {W} m.
Arguments writer {W} m.
Arguments iter {W} m.
Arguments effects {W} m.
Arguments set_model {W} v s.
Arguments set_dataloader {W} v s.
Arguments set_best_test_accuracy {W} v s.
Arguments set_best_test_epoch {W} v s.
Arguments set_opt {W} v s.
Arguments set_lr_scheduler {W} v s.
Arguments set_lr_reducer {W} v s.
Arguments set_logger {W} v s.
Arguments set_iter {W} v s.
Arguments set_effects {W} v s.
Arguments set_stop_label_generation {W} v s.

(** ** A small concrete world

    Images are their own class scores, the network is the identity, every row
    costs a loss of one, and the loader object is just its four streams.  The
    loader stops label generation as soon as it is handed a pseudo-label. *)

Definition toy_batch : Type := list (example (list Q)).

Record toy_pool := {
  toy_train : list toy_batch;
  toy_val : list toy_batch;
  toy_test : list toy_batch;
  toy_unsupervised : list toy_batch
}.

Definition toy : Collaborators :=
  {| image := list Q;
     params := unit;
     plateau := unit;
     pool := toy_pool;
     forward := fun _ x => (x, x);
     cross_entropy := fun _ _ => 1%Q;
     train_step := fun lr theta _ => (theta, lr);
     plateau_step := fun r _ lr => (r, lr);
     train_loader := fun d => toy_train (internals d);
     val_loader := fun d => toy_val (internals d);
     test_loader := fun d => toy_test (internals d);
     unsupervised_train_loader := fun d => toy_unsupervised (internals d);
     train_dataset_len := fun d => Z.of_nat (length (concat (toy_train (internals d))));
     ssl_init_epoch := fun d indices _ =>
       {| stop_label_generation := negb (Nat.eqb (length indices) 0);
          internals := internals d |} |}.

(** A row whose scores favour class [label], filed under dataset position
    [index] with ground truth [target]. *)
Definition toy_row (label target index : Z) : example (list Q) :=
  {| ex_image := map (fun c => if (c =? label)%Z then 1%Q else 0%Q) (seqZ 0 3);
     ex_target := target;
     ex_index := index |}.

Definition toy_loader (stream : list toy_batch) : DataLoader toy_pool :=
  {| stop_label_generation := false;
     internals := {| toy_train := stream; toy_val := stream;
                     toy_test := stream; toy_unsupervised := stream |} |}.

Definition toy_args : Args.t :=
  {| Args.eval := false;
     Args.eval_checkpoint := "";
     Args.optimiser := "sgd";
     Args.learning_rate := 1 # 10;
     Args.lr_scheduler := true;
     Args.lr_schedule := [3; 6]%Z;
     Args.lr_decay_factor := 1 # 10;
     Args.lr_reducer := false;
     Args.filelogger := true;
     Args.tensorboard := true;
     Args.log_interval := 10;
     Args.epochs := 7;
     Args.checkpoint_save_interval := 5;
     Args.exp_name := "toy" |}.

(** The trainer [ModelTrainer(args)] builds over a given stream, or, should
    construction fail, a bare evaluation-mode object. *)
Definition toy_trainer (a : Args.t) (stream : list toy_batch) : ModelTrainer toy :=
  match init toy a tt (toy_loader stream) tt with
  | Ok s => s
  | Raise _ =>
      Build_ModelTrainer toy tt (toy_loader stream) (Fin 0) (Some 0%Z)
        None None None None None None []
  end.

(** A stream of three batches, and one of two batches of four rows of which
    four and two are predicted correctly. *)
Definition toy_stream : list toy_batch :=
  [[toy_row 1 1 10; toy_row 2 2 11]; [toy_row 0 1 12]; [toy_row 0 0 13]].

Definition toy_stream_8 : list toy_batch :=
  [[toy_row 0 0 1; toy_row 1 1 2; toy_row 2 2 3; toy_row 0 0 4];
   [toy_row 0 0 5; toy_row 1 1 6; toy_row 0 1 7; toy_row 1 2 8]].

(** The configuration of a run of twelve epochs, and that of the
    evaluation-only entry point. *)
Definition toy_args_12 : Args.t :=
  {| Args.eval := false;
     Args.eval_checkpoint := "";
     Args.optimiser := "adam";
     Args.learning_rate := 1 # 10;
     Args.lr_scheduler := false;
     Args.lr_schedule := [];
     Args.lr_decay_factor := 1 # 10;
     Args.lr_reducer := true;
     Args.filelogger := true;
     Args.tensorboard := false;
     Args.log_interval := 2;
     Args.epochs := 12;
     Args.checkpoint_save_interval := 5;
     Args.exp_name := "toy" |}.

Definition toy_args_eval : Args.t :=
  {| Args.eval := true;
     Args.eval_checkpoint := "toy_epoch5.pt";
     Args.optimiser := "sgd";
     Args.learning_rate := 1 # 10;
     Args.lr_scheduler := false;
     Args.lr_schedule := [];
     Args.lr_decay_factor := 1 # 10;
     Args.lr_reducer := false;
     Args.filelogger := false;
     Args.tensorboard := false;
     Args.log_interval := 10;
     Args.epochs := 0;
     Args.checkpoint_save_interval := 5;
     Args.exp_name := "toy" |}.

(** The trainer at the head of the loop of a driver: built, with the
    iteration counter at 0. *)
Definition toy_run (a : Args.t) (stream : list toy_batch) : ModelTrainer toy :=
  set_iter (Some 0%Z) (toy_trainer a stream).

(** ** Vocabulary of the statements *)

Section Vocabulary.

Variable W : Collaborators.
Variable args : Args.t.

Local Abbreviation St := (ModelTrainer W).
Local Abbreviation Method := (M (ModelTrainer W)).

(** [m] started in [s] returns normally. *)
Definition returns {A} (m : Method A) (s : St) : Prop :=
  exists a s', m s = Ok (a, s').

(** Whenever [m] returns, the states before and after are related by [R]. *)
Definition preserves {A} (R : St -> St -> Prop) (m : Method A) : Prop :=
  forall s a s', m s = Ok (a, s') -> R s s'.

(** The relation "the observation [f] of the trainer did not change". *)
Definition keeps {B} (f : St -> B) : St -> St -> Prop :=
  fun s s' => f s' = f s.

(** The relation "a state property survives". *)
Definition carries (P : St -> Prop) : St -> St -> Prop :=
  fun s s' => P s -> P s'.

(** What a relation has to put up with to be preserved by the methods: it is
    a preorder, and is kept by the primitive updates that every method may
    make, where [ok] tells which effects it tolerates. *)
Record tolerant (R : St -> St -> Prop) (ok : event -> Prop) : Prop := {
  tol_refl : forall s, R s s;
  tol_trans : forall s1 s2 s3, R s1 s2 -> R s2 s3 -> R s1 s3;
  tol_emit : forall ev, ok ev -> preserves R (emit W ev);
  tol_append : forall k e, preserves R (logger_append W k e)
}.

(** The effects an observation does not see. *)
Definition silent_for {B} (f : St -> B) (ev : event) : Prop :=
  forall s, f (set_effects (effects s ++ [ev]) s) = f s.

(** The effects each method may have. *)
Definition eval_event (ev : event) : Prop :=
  match ev with
  | Stdout (EvalLine _ _ _ _ _ _) | Stdout (BestLine _ _ _) | AddScalar _ _ _ => True
  | _ => False
  end.

Definition label_event (ev : event) : Prop :=
  match ev with
  | Stdout (LabelLine _ _ _ _) | AddScalar _ _ _ => True
  | _ => False
  end.

Definition progress_event (ev : event) : Prop :=
  match ev with
  | Stdout (TrainLine _ _ _ _ _ _ _) | AddScalar _ _ _ => True
  | _ => False
  end.

Definition train_event (ev : event) : Prop :=
  match ev with
  | OptStep _ _ | PlateauStep _ _ | Stdout (TrainLine _ _ _ _ _ _ _) | AddScalar _ _ _ => True
  | _ => False
  end.

Definition scheduler_event (ev : event) : Prop :=
  match ev with
  | SchedulerStep _ _ => True
  | _ => False
  end.

Definition checkpoint_event (ev : event) : Prop :=
  match ev with
  | Stdout (SavedLine _) | TorchSave _ => True
  | _ => False
  end.

(** Views of the effects. *)

(** the epochs whose checkpoint was written *)
Definition saved (ev : event) : option Z :=
  match ev with
  | TorchSave epoch => Some epoch
  | _ => None
  end.

(** the learning rates the schedule has set *)
Definition scheduled (ev : event) : option Q :=
  match ev with
  | SchedulerStep _ lr => Some lr
  | _ => None
  end.

(** the optimiser steps taken, with their epoch and learning rate *)
Definition stepped (ev : event) : option (Z * Q) :=
  match ev with
  | OptStep epoch lr => Some (epoch, lr)
  | _ => None
  end.

(** the calls of [ssl_init_epoch] *)
Definition relabelled (ev : event) : option (list Z * list Z) :=
  match ev with
  | SslInitEpoch indices labels => Some (indices, labels)
  | _ => None
  end.

(** the reports of a label generation pass *)
Definition generated (ev : event) : option unit :=
  match ev with
  | Stdout (LabelLine _ _ _ _) => Some tt
  | _ => None
  end.

(** the epochs of the reports on the test split *)
Definition tested (ev : event) : option Z :=
  match ev with
  | Stdout (EvalLine Test epoch _ _ _ _) => Some epoch
  | _ => None
  end.

Definition view {B} (f : event -> option B) (s : St) : list B := omap f (effects s).

(** The keys of the logger that hold series. *)
Definition series_keys : list string :=
  ["train_loss_per_iter"; "train_loss_per_epoch"; "val_loss_per_iter";
   "val_loss_per_epoch"; "val_accuracy_per_iter"; "val_accuracy_per_epoch";
   "test_loss"; "test_accuracy"; "ssl_loss"; "ssl_accuracy"; "ssl_correct"].

(** The logger is there and its series are lists. *)
Definition logger_ready (s : St) : Prop :=
  exists lg : gmap string lval,
    logger s = Some lg /\
    (forall k, k ∈ series_keys -> exists l, lg !! k = Some (LList l)).

(** The logger has, besides, the summary fields that the drivers print. *)
Definition logger_ok (s : St) : Prop :=
  exists lg : gmap string lval,
    logger s = Some lg /\
    (forall k, k ∈ series_keys -> exists l, lg !! k = Some (LList l)) /\
    (exists e, lg !! "best_epoch" = Some (LVal (PInt e))) /\
    (exists x, lg !! "best_test_accuracy" = Some (LVal (PFloat x))).

(** The logger and the writer are there when the configuration uses them. *)
Definition ready (s : St) : Prop :=
  (Args.filelogger args = true -> logger_ready s) /\
  (Args.tensorboard args = true -> is_Some (writer s)).

(** A method that returns from every ready state, in a ready state. *)
Definition fine {A} (m : Method A) : Prop :=
  (forall s, ready s -> returns m s) /\ preserves (carries ready) m.

(** A trainer in training mode, in the middle of a run, over streams that
    are not empty. *)
Record wf (s : St) : Prop := {
  wf_opt : is_Some (opt s);
  wf_iter : is_Some (iter s);
  wf_scheduler : Args.lr_scheduler args = true -> is_Some (lr_scheduler s);
  wf_reducer : Args.lr_reducer args = true -> is_Some (lr_reducer s);
  wf_logger : Args.filelogger args = true -> logger_ok s;
  wf_writer : Args.tensorboard args = true -> is_Some (writer s);
  wf_best_epoch : is_Some (best_test_epoch s);
  wf_train : train_loader W (dataloader s) <> [];
  wf_val : val_loader W (dataloader s) <> [];
  wf_test : test_loader W (dataloader s) <> [];
  wf_log_interval : Args.log_interval args <> 0%Z;
  wf_save_interval : Args.checkpoint_save_interval args <> 0%Z
}.

(** The batches a capped loop takes from what is left of a stream when it
    stands at position [batch_idx]: all of them without a cap, else those up
    to position [n_batches], and one at least. *)
Definition consumed_from {A} (n_batches : option Z) (batch_idx : Z) (it : list A) : list A :=
  match n_batches with
  | None => it
  | Some n => if (n =? 0)%Z then it else take (S (Z.to_nat (n - batch_idx))) it
  end.

Definition consumed {A} (n_batches : option Z) (stream : list A) : list A :=
  consumed_from n_batches 0 stream.

(** Both accumulators of a tally are tensors. *)
Definition tensors (t : tally) : Prop :=
  match loss_sum t, correct t with
  | Tensor _, Tensor _ => True
  | _, _ => False
  end.

(** The tally of a list of batches. *)
Definition tally_of (theta : params W) (t : tally) (batches : list (batch W)) : tally :=
  foldl (fun t b => tally_batch W theta b t) t batches.

(** The epochs of a list at the end of which a checkpoint is due. *)
Definition due (epochs : list Z) : list Z :=
  List.filter (fun e => (e mod Args.checkpoint_save_interval args =? 0)%Z) epochs.

(** The learning rate in effect during each epoch of a list, when the
    schedule stands at [last_epoch] and the rate at [lr] before the first. *)
Fixpoint rates_during (last_epoch : Z) (lr : Q) (epochs : list Z) : list (Z * Q) :=
  match epochs with
  | [] => []
  | e :: rest =>
      (e, lr) :: rates_during (last_epoch + 1)
                   (multistep_lr args (last_epoch + 1) lr) rest
  end.

(** The learning rate the schedule sets at the end of each epoch. *)
Fixpoint rates_after (last_epoch : Z) (lr : Q) (epochs : list Z) : list Q :=
  match epochs with
  | [] => []
  | e :: rest =>
      multistep_lr args (last_epoch + 1) lr
        :: rates_after (last_epoch + 1) (multistep_lr args (last_epoch + 1) lr) rest
  end.

End Vocabulary.

Arguments returns {W A} m s.
Arguments preserves {W A} R m.
Arguments keeps {W B} f s s'.
Arguments carries {W} P s s'.
Arguments silent_for {W B} f ev.
Arguments view {W B} f s.
Arguments logger_ok {W} s.
Arguments logger_ready {W} s.

(** ** Reasoning rules *)

Section Loops.

Variable W : Collaborators.

Lemma consumed_from_cons {A} n_batches batch_idx (b : A) rest :
  consumed_from n_batches batch_idx (b :: rest) =
    b :: (if cap_reached n_batches batch_idx then []
          else consumed_from n_batches (batch_idx + 1) rest).
Proof.
  unfold consumed_from, cap_reached. destruct n_batches as [n|]; [|reflexivity].
  destruct (n =? 0)%Z eqn:Hn; simpl; [reflexivity|].
  destruct (n <=? batch_idx)%Z eqn:Hle.
  - apply Z.leb_le in Hle. replace (Z.to_nat (n - batch_idx)) with O by lia.
    rewrite take_0. reflexivity.
  - apply Z.leb_gt in Hle.
    replace (Z.to_nat (n - batch_idx)) with (S (Z.to_nat (n - (batch_idx + 1)))) by lia.
    reflexivity.
Qed.

Lemma eval_loop_spec theta n_batches it :
  forall batch_idx t,
    eval_loop W theta n_batches batch_idx it t =
      (tally_of W theta t (consumed_from n_batches batch_idx it),
       drop (length (consumed_from n_batches batch_idx it)) it).
Proof.
  induction it as [|b rest IH]; intros batch_idx t.
  - unfold consumed_from. destruct n_batches as [n|]; [destruct (n =? 0)%Z|]; reflexivity.
  - rewrite consumed_from_cons. simpl. destruct (cap_reached n_batches batch_idx).
    + simpl. rewrite drop_0. reflexivity.
    + rewrite IH. reflexivity.
Qed.

Lemma label_loop_spec theta n_batches it :
  forall batch_idx t indices labels,
    label_loop W theta n_batches batch_idx it t indices labels =
      let taken := consumed_from n_batches batch_idx it in
      (tally_of W theta t taken,
       (indices ++ map ex_index (concat taken),
        labels ++ map (pred W theta) (concat taken)),
       drop (length taken) it).
Proof.
  induction it as [|b rest IH]; intros batch_idx t indices labels.
  - unfold consumed_from.
    destruct n_batches as [n|]; [destruct (n =? 0)%Z|]; simpl; rewrite !app_nil_r;
      reflexivity.
  - rewrite consumed_from_cons. simpl. destruct (cap_reached n_batches batch_idx).
    + simpl. rewrite drop_0, !app_nil_r. reflexivity.
    + rewrite IH. simpl. rewrite !map_app, !app_assoc. reflexivity.
Qed.

Lemma consumed_from_nonempty {A} n_batches batch_idx (it : list A) :
  it <> [] -> consumed_from n_batches batch_idx it <> [].
Proof. destruct it; [congruence|]. rewrite consumed_from_cons. discriminate. Qed.

Lemma tally_of_tensors theta batches :
  forall t, batches <> [] \/ tensors t -> tensors (tally_of W theta t batches).
Proof.
  induction batches as [|b rest IH]; intros t [H|H]; try congruence; simpl.
  - exact H.
  - apply IH. right. unfold tensors. simpl. destruct (loss_sum t), (correct t); exact I.
  - apply IH. right. unfold tensors. simpl. destruct (loss_sum t), (correct t); exact I.
Qed.

Lemma finalize_tensors t :
  tensors t -> exists loss acc, finalize t = Ok (loss, acc).
Proof.
  unfold tensors, finalize, num_div, times_100.
  destruct (loss_sum t), (correct t); try contradiction. intros _.
  destruct (n_examples t =? 0)%Z; eauto.
Qed.

(** On a stream that is not empty the two divisions of [evaluate] go
    through, on an empty one the first raises. *)
Lemma finalize_nonempty theta n_batches it :
  it <> [] ->
  exists loss acc, finalize (eval_loop W theta n_batches 0 it tally0).1 = Ok (loss, acc).
Proof.
  intros Hit. rewrite eval_loop_spec. simpl. apply finalize_tensors, tally_of_tensors.
  left. apply consumed_from_nonempty, Hit.
Qed.

Lemma finalize_empty theta n_batches :
  finalize (eval_loop W theta n_batches 0 [] tally0).1 = Raise ZeroDivisionError.
Proof. reflexivity. Qed.

End Loops.

Section Primitives.

Variable W : Collaborators.

Local Abbreviation St := (ModelTrainer W).
Local Abbreviation Method := (M (ModelTrainer W)).

Lemma lift_ok {A} (r : result A) (s : St) a s' :
  lift r s = Ok (a, s') -> r = Ok a /\ s' = s.
Proof. unfold lift. destruct r; intros H; simplify_eq. auto. Qed.

Lemma attr_ok {A} (f : St -> option A) s a s' :
  attr f s = Ok (a, s') -> f s = Some a /\ s' = s.
Proof. unfold attr. destruct (f s); intros H; simplify_eq. auto. Qed.

Lemma emit_ok ev (s : St) u s' :
  emit W ev s = Ok (u, s') -> s' = set_effects (effects s ++ [ev]) s.
Proof. unfold emit, modify. intros H. simplify_eq. reflexivity. Qed.

Lemma logger_set_ok k v (s : St) u s' :
  logger_set W k v s = Ok (u, s') ->
  exists lg, logger s = Some lg /\ s' = set_logger (Some (<[k := LVal v]> lg)) s.
Proof.
  unfold logger_set, bind, attr, modify.
  destruct (logger s) as [lg|] eqn:Hl; intros H; simplify_eq.
  eauto.
Qed.

Lemma logger_append_ok k e (s : St) u s' :
  logger_append W k e s = Ok (u, s') ->
  exists lg l x,
    logger s = Some lg /\ lg !! k = Some (LList l) /\ e = Ok x /\
    s' = set_logger (Some (<[k := LList (l ++ [x])]> lg)) s.
Proof.
  unfold logger_append, bind, attr.
  destruct (logger s) as [lg|] eqn:Hl; [|discriminate].
  destruct (lg !! k) as [[l|v]|] eqn:Hk; try discriminate.
  unfold lift, modify. destruct e as [x|]; intros H; simplify_eq.
  exists lg, l, x. auto.
Qed.

Lemma add_scalar_ok tag v step (s : St) u s' :
  add_scalar W tag v step s = Ok (u, s') ->
  exists x, v = Ok x /\ is_Some (writer s) /\
            s' = set_effects (effects s ++ [AddScalar tag x step]) s.
Proof.
  unfold add_scalar, bind, attr. destruct (writer s) as [w|] eqn:Hw; [|discriminate].
  unfold lift. destruct v as [x|]; [|discriminate].
  intros H. apply emit_ok in H. exists x. eauto.
Qed.

Lemma bind_ok {A B} (m : Method A) (k : A -> Method B) s b s' :
  bind m k s = Ok (b, s') ->
  exists a s1, m s = Ok (a, s1) /\ k a s1 = Ok (b, s').
Proof.
  unfold bind. destruct (m s) as [[a s1]|e]; [|discriminate].
  intros H. exists a, s1. split; [reflexivity|exact H].
Qed.

Lemma bind_assoc {A B C} (m : Method A) (k : A -> Method B) (h : B -> Method C) s :
  bind (bind m k) h s = bind m (fun a => bind (k a) h) s.
Proof. unfold bind. destruct (m s) as [[a s1]|]; reflexivity. Qed.

Lemma bind_cong {A B} (m : Method A) (k k' : A -> Method B) s :
  (forall a s1, m s = Ok (a, s1) -> k a s1 = k' a s1) ->
  bind m k s = bind m k' s.
Proof. intros H. unfold bind. destruct (m s) as [[a s1]|]; auto. Qed.

Lemma bind_get_l {B} (k : St -> Method B) s : bind get k s = k s s.
Proof. reflexivity. Qed.

Lemma bind_ret_l {A B} (a : A) (k : A -> Method B) s : bind (ret a) k s = k a s.
Proof. reflexivity. Qed.

Lemma returns_bind {A B} (m : Method A) (k : A -> Method B) s :
  returns m s ->
  (forall a s1, m s = Ok (a, s1) -> returns (k a) s1) ->
  returns (bind m k) s.
Proof.
  intros (a & s1 & Hm) Hk. destruct (Hk a s1 Hm) as (b & s2 & Hb).
  exists b, s2. unfold bind. rewrite Hm. exact Hb.
Qed.

End Primitives.

(** Taking a successful run [H : m s = Ok (a, s')] apart, down to the calls
    of the logger and the writer. *)
Ltac run H :=
  lazymatch type of H with
  | bind _ _ _ = Ok _ =>
      let H1 := fresh "Hrun" in
      let H2 := fresh "Hrun" in
      apply bind_ok in H as (? & ? & H1 & H2); run H1; run H2
  | ret _ _ = Ok _ => unfold ret in H; simplify_eq
  | get _ = Ok _ => unfold get in H; first [injection H as <- <-|simplify_eq]
  | modify _ _ = Ok _ => unfold modify in H; simplify_eq
  | raise _ _ = Ok _ => discriminate H
  | lift _ _ = Ok _ => apply lift_ok in H as [? ?]; simplify_eq
  | attr _ _ = Ok _ => apply attr_ok in H as [? ?]; simplify_eq
  | emit _ _ _ = Ok _ => apply emit_ok in H; simplify_eq
  | when ?b _ _ = Ok _ => destruct b eqn:?; unfold when in H; run H
  | (if ?b then _ else _) _ = Ok _ => destruct b eqn:?; run H
  | (match ?x with _ => _ end) _ = Ok _ => destruct x eqn:?; run H
  | logger_set _ _ _ _ = Ok _ =>
      apply logger_set_ok in H as (? & ? & ?); simplify_eq/=
  | logger_append _ _ _ _ = Ok _ =>
      apply logger_append_ok in H as (? & ? & ? & ? & ? & ? & ?); simplify_eq/=
  | add_scalar _ _ _ _ _ = Ok _ =>
      apply add_scalar_ok in H as (? & ? & ? & ?); simplify_eq/=
  | _ => idtac
  end.

Section Rules.

Variable W : Collaborators.
Variable args : Args.t.

Local Abbreviation St := (ModelTrainer W).
Local Abbreviation Method := (M (ModelTrainer W)).

(** A silent pass over the validation split changes nothing at all. *)
Lemma evaluate_val_quiet epoch n_batches s r s' :
  evaluate W args Val epoch false n_batches s = Ok (r, s') -> s' = s.
Proof.
  unfold evaluate, bind, get, lift. simpl.
  destruct (finalize _) as [[loss acc]|]; simpl; [|discriminate].
  intros H. injection H as _ <-. reflexivity.
Qed.

(** What a pass of [evaluate] that returns has done to the best record and
    to the reports on the test split. *)
Lemma evaluate_inv split epoch verbose n_batches s loss acc s' :
  evaluate W args split epoch verbose n_batches s = Ok ((loss, acc), s') ->
  let updated := is_test split && xge acc (best_test_accuracy s) in
  finalize (fst (eval_loop W (model s) n_batches 0
                   (loader_of W split (dataloader s)) tally0)) = Ok (loss, acc) /\
  best_test_accuracy s' = (if updated then acc else best_test_accuracy s) /\
  best_test_epoch s' =
    (match epoch with
     | None => if verbose then Some 0%Z
               else if updated then None else best_test_epoch s
     | Some e => if updated then Some e else best_test_epoch s
     end) /\
  view tested s' =
    view tested s ++ (if verbose && is_test split then [default 0%Z epoch] else []).
Proof.
  intros H. unfold evaluate in H. destruct split, epoch; run H.
  all: unfold convert_for_print in *; unfold view; simpl in *; try discriminate.
  all: repeat rewrite omap_app; simpl.
  all: repeat match goal with H : xge _ _ = _ |- _ => rewrite H end.
  all: repeat rewrite app_nil_r; auto.
Qed.

Section Preservation.

Variable R : St -> St -> Prop.
Variable ok : event -> Prop.
Hypothesis HR : tolerant W R ok.

Lemma preserves_ret {A} (a : A) : preserves R (ret a : Method A).
Proof. intros s a' s' H. injection H as _ <-. apply (tol_refl _ _ _ HR). Qed.

Lemma preserves_raise {A} e : preserves R (raise e : Method A).
Proof. intros s a s' H. discriminate. Qed.

Lemma preserves_get : preserves R (get : Method St).
Proof. intros s a s' H. injection H as _ <-. apply (tol_refl _ _ _ HR). Qed.

Lemma preserves_lift {A} (r : result A) : preserves R (lift r : Method A).
Proof.
  intros s a s' H. unfold lift in H. destruct r; [|discriminate].
  injection H as _ <-. apply (tol_refl _ _ _ HR).
Qed.

Lemma preserves_attr {A} (f : St -> option A) : preserves R (attr f).
Proof.
  intros s a s' H. unfold attr in H. destruct (f s); [|discriminate].
  injection H as _ <-. apply (tol_refl _ _ _ HR).
Qed.

Lemma preserves_bind {A B} (m : Method A) (k : A -> Method B) :
  preserves R m -> (forall a, preserves R (k a)) -> preserves R (bind m k).
Proof.
  intros Hm Hk s b s' H. apply bind_ok in H as (a & s1 & H1 & H2).
  eapply (tol_trans _ _ _ HR); [eapply Hm, H1|eapply Hk, H2].
Qed.

Lemma preserves_when b (m : Method unit) :
  (b = true -> preserves R m) -> preserves R (when b m).
Proof. destruct b; simpl; [auto|intros _; apply preserves_ret]. Qed.

Lemma preserves_modify_emit ev : ok ev -> preserves R (emit W ev).
Proof. apply (tol_emit _ _ _ HR). Qed.

Hypothesis Hscalar : forall tag v step, ok (AddScalar tag v step).

Lemma preserves_add_scalar tag v step : preserves R (add_scalar W tag v step).
Proof.
  unfold add_scalar.
  apply preserves_bind; [apply preserves_attr|intros _].
  apply preserves_bind; [apply preserves_lift|intros x].
  apply preserves_modify_emit, Hscalar.
Qed.

(** A tactic that walks through a method and leaves the primitive updates. *)
Ltac walk leaf :=
  repeat first
    [ progress leaf
    | apply preserves_ret
    | apply preserves_raise
    | apply preserves_get
    | apply preserves_lift
    | apply preserves_attr
    | apply preserves_add_scalar
    | apply (tol_append _ _ _ HR)
    | apply preserves_bind; [|intros ?]
    | apply preserves_when; intros ?
    | match goal with
      | |- preserves _ (match ?x with _ => _ end) => destruct x eqn:?
      end ].

(** *** [evaluate] *)

Hypothesis Heval_event : forall ev, eval_event ev -> ok ev.
Hypothesis Hbest_accuracy : forall v, preserves R (modify (set_best_test_accuracy v)).
Hypothesis Hbest_epoch : forall e, preserves R (modify (set_best_test_epoch (Some e))).
Hypothesis Hlog_best_epoch : forall e, preserves R (logger_set W "best_epoch" (PInt e)).
Hypothesis Hlog_best_accuracy :
  forall x, preserves R (logger_set W "best_test_accuracy" (PFloat x)).

Lemma evaluate_preserves split e verbose n_batches :
  preserves R (evaluate W args split (Some e) verbose n_batches).
Proof.
  unfold evaluate.
  walk ltac:(first [ apply Hbest_accuracy | apply Hbest_epoch | apply Hlog_best_epoch
                   | apply Hlog_best_accuracy
                   | apply preserves_modify_emit, Heval_event; exact I ]).
Qed.

Lemma evaluate_val_preserves epoch n_batches :
  preserves R (evaluate W args Val epoch false n_batches).
Proof.
  intros s r s' H. apply evaluate_val_quiet in H as ->. apply (tol_refl _ _ _ HR).
Qed.

(** *** [generate_labels_for_ssl] *)

Hypothesis Hlabel_event : forall ev, label_event ev -> ok ev.

Lemma generate_labels_for_ssl_preserves epoch n_batches verbose :
  preserves R (generate_labels_for_ssl W args epoch n_batches verbose).
Proof.
  unfold generate_labels_for_ssl.
  walk ltac:(apply preserves_modify_emit, Hlabel_event; exact I).
Qed.

(** *** [train_val] *)

Hypothesis Hprogress_event : forall ev, progress_event ev -> ok ev.
Hypothesis Htrain_event : forall ev, train_event ev -> ok ev.
Hypothesis Hiter : forall i, preserves R (modify (set_iter (Some i))).
Hypothesis Hmodel : forall theta, preserves R (modify (set_model theta)).

Lemma log_progress_preserves epoch batch_idx n_images n_loader loss :
  preserves R (log_progress W args epoch batch_idx n_images n_loader loss).
Proof.
  unfold log_progress.
  walk ltac:(first [ apply evaluate_val_preserves
                   | apply preserves_modify_emit, Hprogress_event; exact I ]).
Qed.

Lemma train_loop_preserves epoch n_loader it :
  forall batch_idx l, preserves R (train_loop W args epoch n_loader batch_idx it l).
Proof.
  induction it as [|b rest IH]; intros batch_idx l; simpl.
  - apply preserves_ret.
  - walk ltac:(first [ apply Hiter | apply Hmodel | apply IH | apply log_progress_preserves
                     | apply preserves_modify_emit, Htrain_event; exact I ]).
Qed.

Hypothesis Hplateau :
  Args.lr_reducer args = true -> forall r, preserves R (modify (set_lr_reducer (Some r))).
Hypothesis Hplateau_opt :
  Args.lr_reducer args = true -> forall lr, preserves R (modify (set_opt (Some lr))).

Lemma train_val_preserves epoch : preserves R (train_val W args epoch).
Proof.
  unfold train_val.
  walk ltac:(first [ apply train_loop_preserves | apply evaluate_val_preserves
                   | apply Hplateau; reflexivity
                   | apply Hplateau_opt; reflexivity
                   | apply preserves_modify_emit, Htrain_event; exact I ]).
Qed.

(** *** The schedule, the checkpoints and the loop *)

Hypothesis Hscheduler_event : forall ev, scheduler_event ev -> ok ev.
Hypothesis Hscheduler : forall e, preserves R (modify (set_lr_scheduler (Some e))).
Hypothesis Hopt : forall lr, preserves R (modify (set_opt (Some lr))).

Lemma lr_scheduler_step_preserves : preserves R (lr_scheduler_step W args).
Proof.
  unfold lr_scheduler_step.
  walk ltac:(first [ apply Hscheduler | apply Hopt
                   | apply preserves_modify_emit, Hscheduler_event; exact I ]).
Qed.

Hypothesis Hcheckpoint_event : forall ev, checkpoint_event ev -> ok ev.

Lemma save_checkpoint_preserves epoch : preserves R (save_checkpoint W args epoch).
Proof.
  unfold save_checkpoint.
  walk ltac:(apply preserves_modify_emit, Hcheckpoint_event; exact I).
Qed.

Lemma for_each_preserves {A} (body : Z -> A -> Method A) epochs :
  (forall e a, preserves R (body e a)) ->
  forall a, preserves R (for_each W body epochs a).
Proof.
  intros Hbody. induction epochs as [|e rest IH]; intros a; simpl.
  - apply preserves_ret.
  - apply preserves_bind; [apply Hbody|intros a'; apply IH].
Qed.

Hypothesis Htic : ok Tic.

Lemma train_val_test_epoch_preserves epoch u :
  preserves R (train_val_test_epoch W args epoch u).
Proof.
  unfold train_val_test_epoch.
  walk ltac:(first [ apply train_val_preserves | apply evaluate_preserves
                   | apply lr_scheduler_step_preserves | apply save_checkpoint_preserves
                   | apply preserves_modify_emit, Htic ]).
Qed.

End Preservation.

(** *** Observations that the methods leave alone *)

Lemma keeps_tolerant {B} (f : St -> B) :
  (forall v s, f (set_logger v s) = f s) ->
  tolerant W (keeps f) (silent_for f).
Proof.
  intros Hlog. split.
  - intros s. reflexivity.
  - intros s1 s2 s3 H12 H23. unfold keeps in *. congruence.
  - intros ev Hev s u s' H. apply emit_ok in H as ->. apply Hev.
  - intros k e s u s' H. apply logger_append_ok in H as (lg & l & x & _ & _ & _ & ->).
    apply Hlog.
Qed.

End Rules.

(** [preserves (keeps f) op] from the rule of [op], for an observation [f]
    that is made of fields and views which [op] does not write. *)
Ltac silence :=
  intros;
  lazymatch goal with
  | H : _ ?ev |- silent_for _ ?ev =>
      destruct ev; try match goal with l : line |- _ => destruct l end;
      try (exfalso; exact H)
  | |- silent_for _ _ => idtac
  end;
  lazymatch goal with
  | |- silent_for ?f _ => unfold silent_for; intros ?; try unfold f
  end;
  unfold view; simpl; rewrite ?omap_app; simpl; rewrite ?app_nil_r;
  reflexivity.

Ltac untouched :=
  intros; unfold preserves;
  let Hm := fresh "Hm" in
  intros ? ? ? Hm;
  first [ run Hm | unfold logger_set in Hm; run Hm ];
  reflexivity.

Ltac frame rule :=
  eapply rule;
  first [ apply keeps_tolerant; intros; reflexivity
        | solve [silence]
        | solve [untouched]
        | intros; congruence
        | idtac ].

Section Frames.

Variable W : Collaborators.
Variable args : Args.t.

Local Abbreviation St := (ModelTrainer W).
Local Abbreviation Method := (M (ModelTrainer W)).

(** What [train_val] does not touch. *)
Definition around_training (s : St) :=
  (dataloader s, best_test_accuracy s, best_test_epoch s, lr_scheduler s,
   view saved s, view scheduled s, view relabelled s, view generated s, view tested s).

Lemma train_val_frame epoch :
  preserves (keeps around_training) (train_val W args epoch).
Proof. frame train_val_preserves. Qed.

Lemma train_val_keeps_opt epoch :
  Args.lr_reducer args = false -> preserves (keeps opt) (train_val W args epoch).
Proof. intros Hoff. frame train_val_preserves. Qed.

(** What [evaluate] does not touch. *)
Definition around_evaluation (s : St) :=
  (model s, dataloader s, opt s, lr_scheduler s, lr_reducer s, iter s, writer s,
   view saved s, view scheduled s, view stepped s, view relabelled s, view generated s).

Lemma evaluate_frame split e verbose n_batches :
  preserves (keeps around_evaluation) (evaluate W args split (Some e) verbose n_batches).
Proof. frame evaluate_preserves. Qed.

(** What [generate_labels_for_ssl] does not touch. *)
Definition around_labelling (s : St) :=
  (model s, dataloader s, best_test_accuracy s, best_test_epoch s, opt s,
   lr_scheduler s, lr_reducer s, iter s, writer s,
   view saved s, view scheduled s, view stepped s, view relabelled s, view tested s).

Lemma generate_labels_for_ssl_frame epoch n_batches verbose :
  preserves (keeps around_labelling)
    (generate_labels_for_ssl W args epoch n_batches verbose).
Proof. frame generate_labels_for_ssl_preserves. Qed.

(** *** The logger keeps its shape *)

Lemma logger_append_ready k e : preserves (carries logger_ready) (logger_append W k e).
Proof.
  intros s u s' H (lg & Hlg & Hkeys).
  apply logger_append_ok in H as (lg' & l & x & Hlg' & Hk & _ & ->).
  assert (lg' = lg) as -> by congruence.
  exists (<[k := LList (l ++ [x])]> lg). split; [reflexivity|].
  intros k' Hk'. destruct (decide (k = k')) as [->|Hne].
  - rewrite lookup_insert_eq. eauto.
  - rewrite lookup_insert_ne by done. auto.
Qed.

Lemma logger_append_ok_kept k e : preserves (carries logger_ok) (logger_append W k e).
Proof.
  intros s u s' H (lg & Hlg & Hkeys & [b Hb] & [a Ha]).
  apply logger_append_ok in H as (lg' & l & x & Hlg' & Hk & _ & ->).
  assert (lg' = lg) as -> by congruence.
  exists (<[k := LList (l ++ [x])]> lg). split; [reflexivity|]. split; [|split].
  - intros k' Hk'. destruct (decide (k = k')) as [->|Hne].
    + rewrite lookup_insert_eq. eauto.
    + rewrite lookup_insert_ne by done. auto.
  - exists b. rewrite lookup_insert_ne by congruence. exact Hb.
  - exists a. rewrite lookup_insert_ne by congruence. exact Ha.
Qed.

Lemma logger_set_ready k v :
  k ∉ series_keys -> preserves (carries logger_ready) (logger_set W k v).
Proof.
  intros Hk s u s' H (lg & Hlg & Hkeys).
  apply logger_set_ok in H as (lg' & Hlg' & ->).
  assert (lg' = lg) as -> by congruence.
  exists (<[k := LVal v]> lg). split; [reflexivity|].
  intros k' Hk'. rewrite lookup_insert_ne by (intros ->; contradiction). auto.
Qed.

Lemma logger_ready_returns_append k x s :
  logger_ready s -> k ∈ series_keys -> returns (logger_append W k (Ok x)) s.
Proof.
  intros (lg & Hlg & Hkeys) Hk. destruct (Hkeys k Hk) as [l Hl].
  unfold returns, logger_append, bind, attr. rewrite Hlg, Hl. simpl. eauto.
Qed.

Lemma logger_ready_returns_set k v s :
  logger_ready s -> returns (logger_set W k v) s.
Proof.
  intros (lg & Hlg & Hkeys).
  unfold returns, logger_set, bind, attr, modify. rewrite Hlg. eauto.
Qed.

Lemma logger_ok_ready (s : St) : logger_ok s -> logger_ready s.
Proof. intros (lg & Hlg & Hkeys & _). exists lg. auto. Qed.

Lemma best_keys_not_series :
  ("best_epoch" ∉ series_keys) /\ ("best_test_accuracy" ∉ series_keys).
Proof. split; apply (bool_decide_unpack _); vm_compute; exact I. Qed.

Lemma logger_set_best_epoch_kept e :
  preserves (carries logger_ok) (logger_set W "best_epoch" (PInt e)).
Proof.
  intros s u s' H (lg & Hlg & Hkeys & [b Hb] & [a Ha]).
  apply logger_set_ok in H as (lg' & Hlg' & ->).
  assert (lg' = lg) as -> by congruence.
  eexists. split; [reflexivity|]. split; [|split].
  - intros k' Hk'. rewrite lookup_insert_ne; [auto|].
    intros <-. exact (proj1 best_keys_not_series Hk').
  - exists e. apply lookup_insert_eq.
  - exists a. rewrite lookup_insert_ne by done. exact Ha.
Qed.

Lemma logger_set_best_accuracy_kept x :
  preserves (carries logger_ok) (logger_set W "best_test_accuracy" (PFloat x)).
Proof.
  intros s u s' H (lg & Hlg & Hkeys & [b Hb] & [a Ha]).
  apply logger_set_ok in H as (lg' & Hlg' & ->).
  assert (lg' = lg) as -> by congruence.
  eexists. split; [reflexivity|]. split; [|split].
  - intros k' Hk'. rewrite lookup_insert_ne; [auto|].
    intros <-. exact (proj2 best_keys_not_series Hk').
  - exists b. rewrite lookup_insert_ne by done. exact Hb.
  - exists x. apply lookup_insert_eq.
Qed.

(** *** Readiness and well-formedness survive *)

Lemma ready_tolerant : tolerant W (carries (ready W args)) (fun _ => True).
Proof.
  split.
  - intros s H. exact H.
  - intros s1 s2 s3 H12 H23 H. auto.
  - intros ev _ s u s' H [Hl Hw]. apply emit_ok in H as ->. split; [|exact Hw].
    intros Hf. destruct (Hl Hf) as (lg & Hlg & Hkeys). exists lg. auto.
  - intros k e s u s' H [Hl Hw]. split.
    + intros Hf. eapply logger_append_ready; eauto.
    + apply logger_append_ok in H as (lg & l & x & _ & _ & _ & ->). exact Hw.
Qed.

Lemma wf_tolerant : tolerant W (carries (wf W args)) (fun _ => True).
Proof.
  split.
  - intros s H. exact H.
  - intros s1 s2 s3 H12 H23 H. auto.
  - intros ev _ s u s' H Hwf. apply emit_ok in H as ->.
    destruct Hwf. split; simpl; auto.
  - intros k e s u s' H Hwf. pose proof H as H'.
    apply logger_append_ok in H as (lg & l & x & _ & _ & _ & ->).
    destruct Hwf. split; simpl; auto.
    intros Hf. eapply logger_append_ok_kept; eauto.
Qed.

End Frames.

(** [preserves (carries P) (modify (set_x v))] for [P] one of [ready], [wf]. *)
Ltac safe :=
  intros; unfold preserves;
  let Hm := fresh "Hm" in
  let Hp := fresh "Hp" in
  intros ? ? ? Hm Hp; run Hm; destruct Hp; split; simpl; eauto.

(** ** Methods that cannot fail *)

Section Totality.

Variable W : Collaborators.
Variable args : Args.t.

Local Abbreviation St := (ModelTrainer W).
Local Abbreviation Method := (M (ModelTrainer W)).

Lemma returns_run {A} (m : Method A) s a s' : m s = Ok (a, s') -> returns m s.
Proof. intros H. exists a, s'. exact H. Qed.

Lemma returns_when b (m : Method unit) s :
  (b = true -> returns m s) -> returns (when b m) s.
Proof. destruct b; simpl; [auto|intros _; eapply returns_run; reflexivity]. Qed.

Lemma returns_get {B} (k : St -> Method B) s :
  returns (k s) s -> returns (bind get k) s.
Proof. intros (b & s' & H). exists b, s'. exact H. Qed.

Lemma returns_modify {B} (f : St -> St) (k : unit -> Method B) s :
  returns (k tt) (f s) -> returns (bind (modify f) k) s.
Proof. intros (b & s' & H). exists b, s'. exact H. Qed.

Lemma returns_emit {B} ev (k : unit -> Method B) s :
  returns (k tt) (set_effects (effects s ++ [ev]) s) -> returns (bind (emit W ev) k) s.
Proof. intros (b & s' & H). exists b, s'. exact H. Qed.

Lemma returns_attr {A B} (f : St -> option A) (k : A -> Method B) s a :
  f s = Some a -> returns (k a) s -> returns (bind (attr f) k) s.
Proof.
  intros Hf (b & s' & H). exists b, s'. unfold bind, attr. rewrite Hf. exact H.
Qed.

Lemma returns_lift {A B} (r : result A) (k : A -> Method B) s a :
  r = Ok a -> returns (k a) s -> returns (bind (lift r) k) s.
Proof. intros -> (b & s' & H). exists b, s'. exact H. Qed.

Lemma fine_ret {A} (a : A) : fine W args (ret a : Method A).
Proof.
  split; [intros s _; eapply returns_run; reflexivity|].
  apply (preserves_ret _ _ _ (ready_tolerant W args)).
Qed.

Lemma fine_bind {A B} (m : Method A) (k : A -> Method B) :
  fine W args m -> (forall a, fine W args (k a)) -> fine W args (bind m k).
Proof.
  intros [Hm Hm'] Hk. split.
  - intros s Hs. apply returns_bind; [auto|].
    intros a s1 H1. apply Hk. eapply Hm'; eauto.
  - apply (preserves_bind _ _ _ (ready_tolerant W args)); [exact Hm'|].
    intros a. apply Hk.
Qed.

Lemma fine_when b (m : Method unit) :
  (b = true -> fine W args m) -> fine W args (when b m).
Proof. destruct b; simpl; [auto|intros _; apply fine_ret]. Qed.

Lemma fine_emit ev : fine W args (emit W ev).
Proof.
  split; [intros s _; eapply returns_run; reflexivity|].
  apply (tol_emit _ _ _ (ready_tolerant W args)). exact I.
Qed.

Lemma fine_modify (f : St -> St) :
  (forall s, logger (f s) = logger s /\ writer (f s) = writer s) ->
  fine W args (modify f).
Proof.
  intros Hf. split; [intros s _; eapply returns_run; reflexivity|].
  intros s u s' H [Hl Hw]. run H. destruct (Hf s) as [H1 H2].
  unfold ready, logger_ready. rewrite H1, H2. auto.
Qed.

Lemma fine_logger_append k x :
  Args.filelogger args = true -> k ∈ series_keys ->
  fine W args (logger_append W k (Ok x)).
Proof.
  intros Hf Hk. split.
  - intros s [Hl _]. apply logger_ready_returns_append; auto.
  - apply (tol_append _ _ _ (ready_tolerant W args)).
Qed.

Lemma fine_logger_set k v :
  Args.filelogger args = true -> k ∉ series_keys ->
  fine W args (logger_set W k v).
Proof.
  intros Hf Hk. split.
  - intros s [Hl _]. apply logger_ready_returns_set; auto.
  - intros s u s' H [Hl Hw]. split.
    + intros _. eapply logger_set_ready; eauto.
    + apply logger_set_ok in H as (lg & _ & ->). exact Hw.
Qed.

Lemma fine_add_scalar tag x step :
  Args.tensorboard args = true -> fine W args (add_scalar W tag (Ok x) step).
Proof.
  intros Ht. split.
  - intros s [_ Hw]. destruct (Hw Ht) as [w Hw'].
    unfold returns, add_scalar, bind, attr. rewrite Hw'. simpl. eauto.
  - apply (preserves_add_scalar _ _ _ (ready_tolerant W args)). intros; exact I.
Qed.

End Totality.

(** Proving that a block of updates, log entries and reports is [fine]. *)
Ltac series_key := apply (bool_decide_unpack _); vm_compute; exact I.

Ltac fine :=
  repeat first
    [ apply fine_ret
    | apply fine_emit
    | apply fine_modify; intros; split; reflexivity
    | apply fine_logger_append; [assumption|series_key]
    | apply fine_logger_set; [assumption|series_key]
    | apply fine_add_scalar; assumption
    | apply fine_bind; [|intros ?]
    | apply fine_when; intros ?
    | match goal with
      | |- fine _ _ (match ?x with _ => _ end) => destruct x eqn:?
      end ].

(** One step forward in a method whose first part is [fine]. *)
Ltac go :=
  lazymatch goal with
  | |- returns (bind get _) _ =>
      let Hm := fresh "Hm" in
      apply returns_bind; [eapply returns_run; reflexivity|intros ? ? Hm; run Hm]
  | Hr : ready ?W ?args ?s |- returns (bind ?m _) ?s =>
      let Hf := fresh "Hf" in
      assert (Hf : fine W args m) by fine;
      apply returns_bind;
      [ apply (proj1 Hf), Hr
      | let Hm := fresh "Hm" in
        let Hr' := fresh "Hr" in
        intros ? ? Hm; pose proof (proj2 Hf _ _ _ Hm Hr) as Hr'; clear Hf; run Hm ]
  end.

Section Returning.

Variable W : Collaborators.
Variable args : Args.t.

Local Abbreviation St := (ModelTrainer W).
Local Abbreviation Method := (M (ModelTrainer W)).

Lemma wf_ready (s : St) : wf W args s -> ready W args s.
Proof.
  intros []. split; [|assumption]. intros Hf. apply logger_ok_ready. auto.
Qed.

Lemma wf_set_iter i (s : St) : wf W args s -> wf W args (set_iter (Some i) s).
Proof. intros []. split; simpl; eauto. Qed.

Lemma wf_set_model theta (s : St) : wf W args s -> wf W args (set_model theta s).
Proof. intros []. split; simpl; eauto. Qed.

Lemma wf_set_opt lr (s : St) : wf W args s -> wf W args (set_opt (Some lr) s).
Proof. intros []. split; simpl; eauto. Qed.

Lemma wf_set_lr_scheduler e (s : St) :
  wf W args s -> wf W args (set_lr_scheduler (Some e) s).
Proof. intros []. split; simpl; eauto. Qed.

Lemma wf_set_lr_reducer r (s : St) :
  wf W args s -> wf W args (set_lr_reducer (Some r) s).
Proof. intros []. split; simpl; eauto. Qed.

Lemma wf_set_effects v (s : St) : wf W args s -> wf W args (set_effects v s).
Proof. intros []. split; simpl; eauto. Qed.

Lemma wf_logger_set_best_epoch e :
  preserves (carries (wf W args)) (logger_set W "best_epoch" (PInt e)).
Proof.
  intros s u s' H Hwf. pose proof H as H'.
  apply logger_set_ok in H as (lg & _ & ->). destruct Hwf. split; simpl; auto.
  intros Hf. eapply logger_set_best_epoch_kept; eauto.
Qed.

Lemma wf_logger_set_best_accuracy x :
  preserves (carries (wf W args)) (logger_set W "best_test_accuracy" (PFloat x)).
Proof.
  intros s u s' H Hwf. pose proof H as H'.
  apply logger_set_ok in H as (lg & _ & ->). destruct Hwf. split; simpl; auto.
  intros Hf. eapply logger_set_best_accuracy_kept; eauto.
Qed.

Lemma train_val_wf epoch : preserves (carries (wf W args)) (train_val W args epoch).
Proof.
  eapply train_val_preserves;
    first [ apply wf_tolerant | intros; exact I | solve [safe] ].
Qed.

Lemma log_progress_wf epoch batch_idx n_images n_loader loss :
  preserves (carries (wf W args))
    (log_progress W args epoch batch_idx n_images n_loader loss).
Proof.
  eapply log_progress_preserves;
    first [ apply wf_tolerant | intros; exact I | solve [safe] ].
Qed.

Lemma evaluate_wf split e verbose n_batches :
  preserves (carries (wf W args)) (evaluate W args split (Some e) verbose n_batches).
Proof.
  eapply evaluate_preserves;
    first [ apply wf_tolerant | apply wf_logger_set_best_epoch
          | apply wf_logger_set_best_accuracy | intros; exact I | solve [safe] ].
Qed.

Lemma evaluate_returns split epoch verbose n_batches (s : St) :
  ready W args s ->
  loader_of W split (dataloader s) <> [] ->
  epoch = None \/ is_Some (best_test_epoch s) ->
  returns (evaluate W args split epoch verbose n_batches) s.
Proof.
  intros Hr Hloader Hbest. unfold evaluate. go.
  destruct (finalize_nonempty W (model s) n_batches _ Hloader) as (loss & acc & Hfin).
  apply returns_bind; [unfold lift; rewrite Hfin; eapply returns_run; reflexivity|].
  intros la s1 Hm. run Hm. assert (la = (loss, acc)) as -> by congruence.
  go.
  all: destruct verbose; [|eapply returns_run; reflexivity].
  all: go; go; go.
  all: cbn [best_test_epoch set_logger set_effects set_best_test_epoch
            set_best_test_accuracy].
  all: try (destruct Hbest as [Hbest|[e' Hbest]]; [discriminate|rewrite Hbest]).
  all: repeat go; eapply returns_run; reflexivity.
Qed.

Lemma log_progress_returns epoch batch_idx n_images n_loader loss (s : St) :
  wf W args s ->
  returns (log_progress W args epoch batch_idx n_images n_loader loss) s.
Proof.
  intros Hwf. pose proof (wf_ready s Hwf) as Hr. unfold log_progress.
  apply returns_bind.
  { apply evaluate_returns; [exact Hr|apply (wf_val _ _ _ Hwf)|left; reflexivity]. }
  intros [val_loss val_acc] s1 Hm. apply evaluate_val_quiet in Hm as ->.
  apply returns_get; repeat go; eapply returns_run; reflexivity.
Qed.

(** A pass of [log_progress] binds the three locals. *)
Lemma log_progress_binds epoch batch_idx n_images n_loader loss (s : St) l s' :
  log_progress W args epoch batch_idx n_images n_loader loss s = Ok (l, s') ->
  is_Some (train_loss l) /\ is_Some (val_metrics l).
Proof.
  intros H. unfold log_progress in H.
  apply bind_ok in H as ([val_loss val_acc] & s1 & _ & H). run H; simpl; eauto.
Qed.

Lemma train_loop_wf epoch n_loader it batch_idx l :
  preserves (carries (wf W args)) (train_loop W args epoch n_loader batch_idx it l).
Proof.
  eapply train_loop_preserves;
    first [ apply wf_tolerant | intros; exact I | solve [safe] ].
Qed.

Lemma train_loop_returns epoch n_loader it :
  forall batch_idx l (s : St),
    wf W args s -> returns (train_loop W args epoch n_loader batch_idx it l) s.
Proof.
  induction it as [|b rest IH]; intros batch_idx l s Hwf; simpl.
  - eapply returns_run; reflexivity.
  - destruct (wf_opt _ _ _ Hwf) as [lr Hlr]. destruct (wf_iter _ _ _ Hwf) as [i Hi].
    eapply returns_attr; [exact Hlr|]. eapply returns_attr; [exact Hi|].
    apply returns_modify, returns_get.
    destruct (train_step W lr _ b) as [theta loss].
    apply returns_modify, returns_emit.
    match goal with |- returns _ ?s3 => assert (Hwf3 : wf W args s3) end.
    { apply wf_set_effects, wf_set_model, wf_set_iter, Hwf. }
    destruct (Args.log_interval args =? 0)%Z eqn:Hlog.
    { apply Z.eqb_eq in Hlog. destruct (wf_log_interval _ _ _ Hwf Hlog). }
    apply returns_bind.
    + destruct (_ mod _ =? 0)%Z.
      * apply log_progress_returns, Hwf3.
      * eapply returns_run; reflexivity.
    + intros l' s4 Hm. apply IH.
      destruct (_ mod _ =? 0)%Z.
      * eapply log_progress_wf; eauto.
      * run Hm. exact Hwf3.
Qed.

(** After a loop over a stream that is not empty the three locals are bound:
    position 0 always logs. *)
Lemma train_loop_binds epoch n_loader it :
  forall batch_idx l (s : St) l' s',
    train_loop W args epoch n_loader batch_idx it l s = Ok (l', s') ->
    (is_Some (train_loss l) /\ is_Some (val_metrics l)) \/ (it <> [] /\ batch_idx = 0%Z) ->
    is_Some (train_loss l') /\ is_Some (val_metrics l').
Proof.
  induction it as [|b rest IH]; intros batch_idx l s l' s' H Hl; simpl in H.
  - run H. destruct Hl as [Hl|[Hl _]]; [exact Hl|congruence].
  - apply bind_ok in H as (lr & s1 & _ & H). apply bind_ok in H as (i & s2 & _ & H).
    apply bind_ok in H as (u & s3 & _ & H). apply bind_ok in H as (s4 & s5 & _ & H).
    destruct (train_step W lr _ b) as [theta loss].
    apply bind_ok in H as (u1 & s6 & _ & H). apply bind_ok in H as (u2 & s7 & _ & H).
    apply bind_ok in H as (l1 & s8 & Hlog & H).
    eapply IH; [exact H|]. left.
    destruct (Args.log_interval args =? 0)%Z eqn:Hz; [discriminate|].
    destruct (batch_idx mod Args.log_interval args =? 0)%Z eqn:Hmod.
    + eapply log_progress_binds, Hlog.
    + run Hlog. destruct Hl as [Hl|[_ ->]]; [exact Hl|].
      rewrite Z.mod_0_l in Hmod; [discriminate|]. apply Z.eqb_neq, Hz.
Qed.

Lemma train_val_returns epoch (s : St) :
  wf W args s -> returns (train_val W args epoch) s.
Proof.
  intros Hwf. unfold train_val. apply returns_get.
  apply returns_bind; [apply train_loop_returns, Hwf|].
  intros l s1 Hloop.
  assert (Hwf1 : wf W args s1) by (eapply train_loop_wf; eauto).
  destruct (train_loop_binds _ _ _ _ _ _ _ _ Hloop) as [[q Hq] [vm Hvm]].
  { right. split; [apply (wf_train _ _ _ Hwf)|reflexivity]. }
  rewrite Hq. simpl.
  apply returns_bind with (m := if Args.lr_reducer args then _ else _).
  - destruct (Args.lr_reducer args) eqn:Hred; [|eapply returns_run; reflexivity].
    apply returns_bind.
    { apply evaluate_returns;
        [apply wf_ready, Hwf1|apply (wf_val _ _ _ Hwf1)|left; reflexivity]. }
    intros vm0 s2 Hm. apply evaluate_val_quiet in Hm as ->.
    destruct (wf_reducer _ _ _ Hwf1 Hred) as [r Hr].
    destruct (wf_opt _ _ _ Hwf1) as [lr Hlr].
    eapply returns_attr; [exact Hr|]. eapply returns_attr; [exact Hlr|].
    destruct (plateau_step W r vm0.1 lr) as [r' lr'].
    apply returns_modify, returns_modify, returns_emit.
    eapply returns_run; reflexivity.
  - intros a s0 Hm.
    assert (Hs0 : wf W args s0 /\ is_Some a).
    { destruct (Args.lr_reducer args) eqn:Hred.
      - apply bind_ok in Hm as (vm0 & s2 & Heval & Hm).
        apply evaluate_val_quiet in Heval as ->. run Hm.
        split; [|eauto]. apply wf_set_effects, wf_set_opt, wf_set_lr_reducer, Hwf1.
      - run Hm. split; [exact Hwf1|eauto]. }
    destruct Hs0 as [Hwf0 [vm0 ->]]. pose proof (wf_ready _ Hwf0) as Hr0.
    eapply returns_lift; [reflexivity|].
    go.
    all: match goal with
         | |- returns ?m _ =>
             let Hf := fresh "Hf" in
             assert (Hf : fine W args m) by fine; apply (proj1 Hf); assumption
         end.
Qed.

Lemma lr_scheduler_step_wf :
  preserves (carries (wf W args)) (lr_scheduler_step W args).
Proof.
  eapply lr_scheduler_step_preserves;
    first [ apply wf_tolerant | intros; exact I | solve [safe] ].
Qed.

Lemma save_checkpoint_wf epoch :
  preserves (carries (wf W args)) (save_checkpoint W args epoch).
Proof.
  eapply save_checkpoint_preserves; first [ apply wf_tolerant | intros; exact I ].
Qed.

Lemma train_val_test_epoch_wf epoch u :
  preserves (carries (wf W args)) (train_val_test_epoch W args epoch u).
Proof.
  eapply train_val_test_epoch_preserves;
    first [ apply wf_tolerant | apply wf_logger_set_best_epoch
          | apply wf_logger_set_best_accuracy | intros; exact I | solve [safe] ].
Qed.

Lemma lr_scheduler_step_returns (s : St) :
  is_Some (lr_scheduler s) -> is_Some (opt s) -> returns (lr_scheduler_step W args) s.
Proof.
  intros [k Hk] [lr Hlr]. unfold lr_scheduler_step.
  eapply returns_attr; [exact Hk|]. eapply returns_attr; [exact Hlr|].
  eapply returns_run; reflexivity.
Qed.

Lemma save_checkpoint_returns epoch (s : St) :
  Args.checkpoint_save_interval args <> 0%Z -> returns (save_checkpoint W args epoch) s.
Proof.
  intros Hc. unfold save_checkpoint. apply Z.eqb_neq in Hc. rewrite Hc.
  destruct (_ mod _ =? 0)%Z; eapply returns_run; reflexivity.
Qed.

Lemma train_val_test_epoch_returns epoch u (s : St) :
  wf W args s -> returns (train_val_test_epoch W args epoch u) s.
Proof.
  intros Hwf. unfold train_val_test_epoch.
  apply returns_bind; [apply train_val_returns, Hwf|]. intros u1 s1 H1.
  assert (Hwf1 : wf W args s1) by (eapply train_val_wf; eauto).
  apply returns_bind.
  { apply evaluate_returns;
      [apply wf_ready, Hwf1|apply (wf_test _ _ _ Hwf1)|right; apply (wf_best_epoch _ _ _ Hwf1)]. }
  intros r s2 H2.
  assert (Hwf2 : wf W args s2) by (eapply evaluate_wf; eauto).
  apply returns_bind.
  { apply returns_when. intros Hs. apply lr_scheduler_step_returns.
    - apply (wf_scheduler _ _ _ Hwf2 Hs).
    - apply (wf_opt _ _ _ Hwf2). }
  intros u3 s3 H3.
  apply returns_bind; [apply save_checkpoint_returns, (wf_save_interval _ _ _ Hwf)|].
  intros u4 s4 H4. eapply returns_run; reflexivity.
Qed.

(** The loop of [train_val_test] runs to its end. *)
Lemma train_val_test_loop_returns epochs :
  forall (s : St),
    wf W args s ->
    exists s', for_each W (train_val_test_epoch W args) epochs tt s = Ok (tt, s')
               /\ wf W args s'.
Proof.
  induction epochs as [|e rest IH]; intros s Hwf; simpl.
  - exists s. split; [reflexivity|exact Hwf].
  - destruct (train_val_test_epoch_returns e tt s Hwf) as ([] & s1 & H1).
    assert (Hwf1 : wf W args s1) by (eapply train_val_test_epoch_wf; eauto).
    destruct (IH s1 Hwf1) as (s' & H' & Hwf').
    exists s'. split; [|exact Hwf']. unfold bind. rewrite H1. exact H'.
Qed.

End Returning.

(** ** What one epoch does *)

Section Epochs.

Variable W : Collaborators.
Variable args : Args.t.

Local Abbreviation St := (ModelTrainer W).
Local Abbreviation Method := (M (ModelTrainer W)).

(** What [log_progress] does not touch. *)
Definition around_progress (s : St) := (opt s, view stepped s).

Lemma log_progress_frame epoch batch_idx n_images n_loader loss :
  preserves (keeps around_progress)
    (log_progress W args epoch batch_idx n_images n_loader loss).
Proof. frame log_progress_preserves. Qed.

(** Every batch of the training stream gets one optimiser step, at the
    learning rate the epoch started with. *)
Lemma train_loop_stepped epoch n_loader it lr :
  forall batch_idx l (s : St) l' s',
    train_loop W args epoch n_loader batch_idx it l s = Ok (l', s') ->
    opt s = Some lr ->
    opt s' = Some lr /\
    view stepped s' = view stepped s ++ replicate (length it) (epoch, lr).
Proof.
  induction it as [|b rest IH]; intros batch_idx l s l' s' H Hlr; simpl in H.
  - run H. rewrite app_nil_r. auto.
  - apply bind_ok in H as (lr0 & s1 & H1 & H). apply attr_ok in H1 as [Hopt0 ->].
    assert (lr0 = lr) as -> by congruence. clear Hopt0.
    apply bind_ok in H as (i & s2 & H2 & H). apply attr_ok in H2 as [_ ->].
    apply bind_ok in H as (u & s3 & H3 & H). run H3.
    apply bind_ok in H as (s4 & s5 & H4 & H). run H4.
    destruct (train_step W lr _ b) as [theta loss].
    apply bind_ok in H as (u1 & s6 & H5 & H). run H5.
    apply bind_ok in H as (u2 & s7 & H6 & H). run H6.
    apply bind_ok in H as (l1 & s8 & Hlog & H).
    match type of Hlog with
    | _ ?s7 = _ =>
        assert (Hs8 : opt s8 = Some lr /\ view stepped s8 = view stepped s7)
    end.
    { destruct (Args.log_interval args =? 0)%Z; [discriminate|].
      destruct (_ mod _ =? 0)%Z.
      - apply log_progress_frame in Hlog. unfold keeps, around_progress in Hlog.
        simplify_eq. split; [|assumption]. simpl in *. congruence.
      - run Hlog. split; [exact Hlr|reflexivity]. }
    destruct Hs8 as [Hopt8 Hview8].
    destruct (IH _ _ _ _ _ H Hopt8) as [Hopt' Hview'].
    split; [exact Hopt'|]. rewrite Hview', Hview8. unfold view. simpl.
    rewrite omap_app. simpl. rewrite <- app_assoc. reflexivity.
Qed.

Lemma train_val_stepped epoch lr (s : St) u s' :
  train_val W args epoch s = Ok (u, s') ->
  opt s = Some lr ->
  view stepped s' =
    view stepped s ++ replicate (length (train_loader W (dataloader s))) (epoch, lr) /\
  (Args.lr_reducer args = false -> opt s' = Some lr).
Proof.
  intros H Hlr. unfold train_val in H.
  apply bind_ok in H as (s0 & s0' & H0 & H). run H0.
  apply bind_ok in H as (l & s1 & Hloop & H).
  destruct (train_loop_stepped _ _ _ _ _ _ _ _ _ Hloop Hlr) as [Hopt1 Hview1].
  assert (Htail : view stepped s' = view stepped s1 /\
                  (Args.lr_reducer args = false -> opt s' = opt s1)).
  { clear Hloop Hview1. run H.
    all: repeat match goal with
           | He : evaluate _ _ Val _ false _ _ = Ok _ |- _ =>
               apply evaluate_val_quiet in He; subst
           end.
    all: unfold view; simpl; rewrite ?omap_app; simpl; rewrite ?app_nil_r.
    all: split; [reflexivity|]; intros; try congruence. }
  destruct Htail as [Hview' Hopt']. split.
  - etransitivity; [exact Hview'|exact Hview1].
  - intros Hoff. rewrite (Hopt' Hoff). exact Hopt1.
Qed.

(** Taking the tuple of a frame apart. *)
Lemma train_val_test_epoch_inv epoch u (s : St) u' s' :
  train_val_test_epoch W args epoch u s = Ok (u', s') ->
  dataloader s' = dataloader s /\
  view relabelled s' = view relabelled s /\
  view generated s' = view generated s /\
  view tested s' = view tested s ++ [epoch] /\
  view saved s' =
    view saved s ++
      (if (epoch mod Args.checkpoint_save_interval args =? 0)%Z then [epoch] else []) /\
  length (view scheduled s') =
    (length (view scheduled s) + if Args.lr_scheduler args then 1 else 0)%nat /\
  (forall lr, opt s = Some lr ->
     view stepped s' =
       view stepped s ++
         replicate (length (train_loader W (dataloader s))) (epoch, lr)).
Proof.
  intros H. unfold train_val_test_epoch in H.
  apply bind_ok in H as (u1 & s1 & Htv & H).
  apply bind_ok in H as ([loss acc] & s2 & Hev & H).
  pose proof (train_val_frame W args _ _ _ _ Htv) as Ftv.
  pose proof (evaluate_frame W args _ _ _ _ _ _ _ Hev) as Fev.
  pose proof (evaluate_inv W args _ _ _ _ _ _ _ _ Hev) as (_ & _ & _ & Htested).
  unfold keeps, around_training in Ftv. unfold keeps, around_evaluation in Fev.
  simplify_eq.
  assert (Hstep : forall lr, opt s = Some lr ->
            view stepped s2 =
              view stepped s ++
                replicate (length (train_loader W (dataloader s))) (epoch, lr)).
  { intros lr Hlr. destruct (train_val_stepped _ _ _ _ _ Htv Hlr) as [Hv _]. congruence. }
  clear Htv Hev.
  unfold lr_scheduler_step, save_checkpoint in H. run H.
  all: unfold view in *; simpl in *; rewrite ?omap_app; simpl; rewrite ?app_nil_r.
  all: rewrite ?length_app; simpl.
  all: repeat split; try congruence; try lia; auto.
  all: rewrite Nat.add_0_r; congruence.
Qed.

End Epochs.

(** ** The evaluator *)

Section Evaluator.

Variable W : Collaborators.
Variable args : Args.t.

Local Abbreviation St := (ModelTrainer W).

(** C1.  With a cap [n_batches = k > 0] and a stream of at least [k + 1]
    batches, the loop of [evaluate] takes [k + 1] batches from the stream, one
    more than the cap, before the metrics are finalized: the test
    [batch_idx >= n_batches] comes after the batch at position [k] has been
    tallied. *)
Theorem evaluate_consumes_one_more_than_cap theta (k : Z) (stream : list (batch W)) t :
  (0 < k)%Z ->
  (Z.to_nat k + 1 <= length stream)%nat ->
  let r := eval_loop W theta (Some k) 0 stream t in
  r.1 = tally_of W theta t (take (Z.to_nat k + 1) stream) /\
  r.2 = drop (Z.to_nat k + 1) stream /\
  Z.of_nat (length stream - length r.2) = (k + 1)%Z.
Proof.
  intros Hk Hlen r. subst r. rewrite eval_loop_spec. unfold consumed_from.
  replace (k =? 0)%Z with false by (symmetry; apply Z.eqb_neq; lia).
  rewrite Z.sub_0_r. replace (S (Z.to_nat k)) with (Z.to_nat k + 1)%nat by lia.
  cbn [fst snd]. rewrite length_take, Nat.min_l by lia.
  repeat split. rewrite length_drop. lia.
Qed.

(** C6.  Over an empty stream [evaluate] raises [ZeroDivisionError], whatever
    its arguments, and the error goes through the epoch of the driver
    untouched. *)
Theorem evaluate_empty_stream_raises split epoch verbose n_batches (s : St) :
  loader_of W split (dataloader s) = [] ->
  evaluate W args split epoch verbose n_batches s = Raise ZeroDivisionError /\
  (forall e u s1,
     split = Test ->
     train_val W args e s = Ok (u, s1) ->
     train_val_test_epoch W args e tt s = Raise ZeroDivisionError).
Proof.
  intros Hempty.
  assert (Hraise : forall s0 : St, loader_of W split (dataloader s0) = [] ->
            forall ep, evaluate W args split ep verbose n_batches s0
                       = Raise ZeroDivisionError).
  { intros s0 H0 ep. unfold evaluate, bind, get. rewrite H0. reflexivity. }
  split; [apply Hraise, Hempty|].
  intros e u s1 -> Htv. unfold train_val_test_epoch, bind. rewrite Htv.
  pose proof (train_val_frame W args _ _ _ _ Htv) as F.
  unfold keeps, around_training in F. simplify_eq.
  unfold evaluate, bind, get. simpl in *.
  replace (test_loader W (dataloader s1)) with (@nil (batch W)) by congruence.
  reflexivity.
Qed.

(** C8.  Two batches of four rows, four and two of them predicted
    correctly: the pass counts eight examples and six hits, and every call of
    [evaluate] over that stream that returns gives an accuracy of 75; it does
    return from a ready trainer. *)
Theorem evaluate_two_batches_accuracy split epoch verbose (s : St) (b1 b2 : batch W) :
  loader_of W split (dataloader s) = [b1; b2] ->
  length b1 = 4%nat -> length b2 = 4%nat ->
  batch_correct W (model s) b1 = 4%Z -> batch_correct W (model s) b2 = 2%Z ->
  let t := (eval_loop W (model s) None 0 [b1; b2] tally0).1 in
  n_examples t = 8%Z /\ num_val (correct t) = 6%Z /\
  (forall loss acc s',
     evaluate W args split epoch verbose None s = Ok ((loss, acc), s') ->
     exists q, acc = Fin q /\ (q == 75)%Q) /\
  (ready W args s -> epoch = None \/ is_Some (best_test_epoch s) ->
   returns (evaluate W args split epoch verbose None) s).
Proof.
  intros Hstream H1 H2 Hc1 Hc2 t.
  assert (Ht : n_examples t = 8%Z /\ correct t = Tensor 6%Z).
  { subst t. simpl. rewrite H1, H2, Hc1, Hc2. split; reflexivity. }
  destruct Ht as [Hn Hc]. split; [exact Hn|]. split; [rewrite Hc; reflexivity|]. split.
  - intros loss acc s' H. apply evaluate_inv in H as (Hfin & _). rewrite Hstream in Hfin.
    fold t in Hfin. unfold finalize in Hfin. rewrite Hn, Hc in Hfin.
    destruct (num_div (loss_sum t) 8) as [l|]; [|discriminate].
    simpl in Hfin. injection Hfin as _ <-. eexists. split; [reflexivity|]. reflexivity.
  - intros Hr Hb. apply evaluate_returns; [exact Hr| |exact Hb]. rewrite Hstream. discriminate.
Qed.

(** C10.  The entry point [evaluate("Test", verbose=True)], without an epoch:
    from a ready trainer over a test stream that is not empty the call
    returns, and the best epoch it leaves is 0, whatever it was before. *)
Theorem evaluate_without_epoch_resets_best_epoch n_batches (s : St) :
  ready W args s ->
  test_loader W (dataloader s) <> [] ->
  exists r s',
    evaluate W args Test None true n_batches s = Ok (r, s') /\
    best_test_epoch s' = Some 0%Z.
Proof.
  intros Hr Hne.
  destruct (evaluate_returns W args Test None true n_batches s Hr Hne) as ([loss acc] & s' & H).
  { left. reflexivity. }
  exists (loss, acc), s'. split; [exact H|].
  apply evaluate_inv in H as (_ & _ & He & _). exact He.
Qed.

Lemma xge_refl x : x <> NaN -> xge x x = true.
Proof.
  destruct x; simpl; try congruence; intros _.
  apply Qle_bool_iff, Qle_refl.
Qed.

Lemma xge_trans a b c : xge b a = true -> xge c b = true -> xge c a = true.
Proof.
  destruct a, b, c; simpl; try discriminate; try reflexivity.
  rewrite !Qle_bool_iff. intros H1 H2. eapply Qle_trans; eauto.
Qed.

Lemma xge_not_nan a b : xge a b = true -> a <> NaN.
Proof. destruct a; simpl; congruence. Qed.

(** C4, as amended.  Without [verbose] a pass over the validation split
    leaves the trainer as it was; a pass over the test split replaces the
    best record by the accuracy and the epoch of the pass when the accuracy is
    at least the recorded one, and leaves it alone otherwise: the update is
    decided by the split, not by [verbose]. *)
Theorem evaluate_silent_best_record split epoch n_batches (s : St) loss acc s' :
  evaluate W args split epoch false n_batches s = Ok ((loss, acc), s') ->
  match split with
  | Val => s' = s
  | Test =>
      if xge acc (best_test_accuracy s)
      then best_test_accuracy s' = acc /\ best_test_epoch s' = epoch
      else best_test_accuracy s' = best_test_accuracy s /\
           best_test_epoch s' = best_test_epoch s
  end.
Proof.
  intros H. destruct split.
  - eapply evaluate_val_quiet, H.
  - apply evaluate_inv in H as (_ & Hb & He & _). simpl in *.
    destruct (xge acc (best_test_accuracy s)), epoch; auto.
Qed.

(** The best accuracy never goes down, as a relation between two states. *)
Definition improves (s s' : St) : Prop :=
  best_test_accuracy s <> NaN ->
  xge (best_test_accuracy s') (best_test_accuracy s) = true.

Lemma improves_refl s : improves s s.
Proof. intros H. apply xge_refl, H. Qed.

Lemma improves_trans s1 s2 s3 : improves s1 s2 -> improves s2 s3 -> improves s1 s3.
Proof.
  intros H12 H23 H1. pose proof (H12 H1) as H2.
  eapply xge_trans; [exact H2|]. apply H23. eapply xge_not_nan, H2.
Qed.

Lemma evaluate_improves split e verbose n_batches (s : St) r s' :
  evaluate W args split (Some e) verbose n_batches s = Ok (r, s') -> improves s s'.
Proof.
  destruct r as [loss acc]. intros H Hnan.
  apply evaluate_inv in H as (_ & Hb & _). rewrite Hb.
  destruct (is_test split && xge acc (best_test_accuracy s)) eqn:Hup.
  - apply andb_true_iff in Hup. apply Hup.
  - apply xge_refl, Hnan.
Qed.

Lemma train_val_test_epoch_improves epoch u (s : St) u' s' :
  train_val_test_epoch W args epoch u s = Ok (u', s') -> improves s s'.
Proof.
  intros H. unfold train_val_test_epoch in H.
  apply bind_ok in H as (u1 & s1 & Htv & H).
  apply bind_ok in H as (r & s2 & Hev & H).
  pose proof (train_val_frame W args _ _ _ _ Htv) as Ftv.
  unfold keeps, around_training in Ftv. simplify_eq.
  pose proof (evaluate_improves _ _ _ _ _ _ _ Hev) as Himp.
  assert (Hrest : best_test_accuracy s' = best_test_accuracy s2).
  { unfold lr_scheduler_step, save_checkpoint in H. run H; reflexivity. }
  unfold improves in *. rewrite Hrest.
  match goal with
  | Hb : best_test_accuracy s1 = best_test_accuracy s |- _ => rewrite <- Hb
  end.
  exact Himp.
Qed.

(** C3.  On the test split, with the epoch given: the best record is replaced
    by the accuracy and the epoch of the pass exactly when the accuracy is at
    least the recorded one, so that a tie hands the best epoch to the later
    pass; the best accuracy does not go down, neither in one pass nor over
    the epochs of a run. *)
Theorem best_record_monotone e verbose n_batches (s : St) loss acc s' :
  evaluate W args Test (Some e) verbose n_batches s = Ok ((loss, acc), s') ->
  best_test_accuracy s <> NaN ->
  (xge acc (best_test_accuracy s) = true ->
     best_test_accuracy s' = acc /\ best_test_epoch s' = Some e) /\
  (xge acc (best_test_accuracy s) = false ->
     best_test_accuracy s' = best_test_accuracy s /\
     best_test_epoch s' = best_test_epoch s) /\
  (acc = best_test_accuracy s -> best_test_epoch s' = Some e) /\
  xge (best_test_accuracy s') (best_test_accuracy s) = true /\
  (forall epochs s1 s2,
     for_each W (train_val_test_epoch W args) epochs tt s1 = Ok (tt, s2) ->
     best_test_accuracy s1 <> NaN ->
     xge (best_test_accuracy s2) (best_test_accuracy s1) = true).
Proof.
  intros H Hnan. pose proof (evaluate_improves _ _ _ _ _ _ _ H Hnan) as Hmono.
  apply evaluate_inv in H as (_ & Hb & He & _). simpl in Hb, He.
  repeat split.
  - rewrite Hb, H. reflexivity.
  - rewrite He, H. reflexivity.
  - rewrite Hb, H. reflexivity.
  - rewrite He, H. reflexivity.
  - intros ->. rewrite He, xge_refl by exact Hnan. reflexivity.
  - exact Hmono.
  - induction epochs as [|ep rest IH]; intros s1 s2 Hrun H1; simpl in Hrun.
    + run Hrun. apply xge_refl, H1.
    + apply bind_ok in Hrun as ([] & s3 & Hep & Hrun).
      pose proof (train_val_test_epoch_improves _ _ _ _ _ Hep H1) as H13.
      eapply xge_trans; [exact H13|]. apply IH; [exact Hrun|].
      eapply xge_not_nan, H13.
Qed.

End Evaluator.

(** ** The pseudo-label generator *)

Section Generator.

Variable W : Collaborators.
Variable args : Args.t.

Local Abbreviation St := (ModelTrainer W).

Lemma generate_labels_for_ssl_inv epoch n_batches verbose (s : St) indices labels s' :
  generate_labels_for_ssl W args epoch n_batches verbose s = Ok ((indices, labels), s') ->
  let rows := concat (consumed n_batches (unsupervised_train_loader W (dataloader s))) in
  indices = map ex_index rows /\ labels = map (pred W (model s)) rows.
Proof.
  intros H rows. unfold generate_labels_for_ssl in H.
  apply bind_ok in H as (s0 & s1 & H0 & H). run H0.
  apply bind_ok in H as (la & s1 & _ & H). destruct la as [loss acc].
  apply bind_ok in H as (u & s2 & _ & H). run H.
  rewrite label_loop_spec in *. simpl in *. simplify_eq. auto.
Qed.

Lemma generate_labels_for_ssl_returns epoch n_batches verbose (s : St) :
  ready W args s ->
  unsupervised_train_loader W (dataloader s) <> [] ->
  returns (generate_labels_for_ssl W args epoch n_batches verbose) s.
Proof.
  intros Hr Hne. unfold generate_labels_for_ssl. apply returns_get.
  rewrite label_loop_spec. cbn [fst snd].
  destruct (finalize_tensors
              (tally_of W (model s) tally0
                 (consumed_from n_batches 0 (unsupervised_train_loader W (dataloader s)))))
    as (loss & acc & Hfin).
  { apply tally_of_tensors. left. apply consumed_from_nonempty, Hne. }
  eapply returns_lift; [exact Hfin|]. cbn beta iota.
  go. all: eapply returns_run; reflexivity.
Qed.

(** C7.  The two lists a call returns are the dataset indices and the arg-max
    predictions of the rows of the consumed batches, batch after batch and row
    after row: they are equally long, the label at a position is the
    prediction for the row whose index stands at that position, and indices
    that are distinct in the consumed batches are distinct in the result.  The
    call returns from a ready trainer over a stream that is not empty. *)
Theorem generate_labels_parallel epoch n_batches verbose (s : St) :
  let rows := concat (consumed n_batches (unsupervised_train_loader W (dataloader s))) in
  (forall indices labels s',
     generate_labels_for_ssl W args epoch n_batches verbose s
       = Ok ((indices, labels), s') ->
     length indices = length labels /\
     indices = map ex_index rows /\
     (forall i idx lab,
        indices !! i = Some idx -> labels !! i = Some lab ->
        exists row, rows !! i = Some row /\ ex_index row = idx /\
                    lab = Z.of_nat (argmax (forward W (model s) (ex_image row)).1)) /\
     (NoDup (map ex_index rows) -> NoDup indices)) /\
  (ready W args s -> unsupervised_train_loader W (dataloader s) <> [] ->
   returns (generate_labels_for_ssl W args epoch n_batches verbose) s).
Proof.
  intros rows. split; [|apply generate_labels_for_ssl_returns].
  intros indices labels s' H.
  apply generate_labels_for_ssl_inv in H as [-> ->]. fold rows.
  split; [rewrite !length_map; reflexivity|]. split; [reflexivity|]. split; [|auto].
  intros i idx lab Hi Hl. rewrite list_lookup_fmap in Hi, Hl.
  destruct (rows !! i) as [row|]; [|discriminate]. simpl in Hi, Hl.
  exists row. unfold pred in Hl. split; [reflexivity|]. split; congruence.
Qed.

End Generator.

(** ** The drivers *)

Section Drivers.

Variable W : Collaborators.
Variable args : Args.t.

Local Abbreviation St := (ModelTrainer W).

(** What the loop of [train_val_test] has done when it returns. *)
Lemma train_val_test_loop_inv epochs :
  forall (s s' : St),
    for_each W (train_val_test_epoch W args) epochs tt s = Ok (tt, s') ->
    dataloader s' = dataloader s /\
    view relabelled s' = view relabelled s /\
    view generated s' = view generated s /\
    view tested s' = view tested s ++ epochs /\
    view saved s' = view saved s ++ due args epochs /\
    length (view scheduled s') =
      (length (view scheduled s) + if Args.lr_scheduler args then length epochs else 0)%nat.
Proof.
  induction epochs as [|e rest IH]; intros s s' H; simpl in H.
  - run H. unfold due. simpl. rewrite !app_nil_r.
    destruct (Args.lr_scheduler args); repeat split; lia.
  - apply bind_ok in H as ([] & s1 & He & H).
    apply train_val_test_epoch_inv in He as (Hd & Hr & Hg & Ht & Hs & Hl & _).
    apply IH in H as (Hd' & Hr' & Hg' & Ht' & Hs' & Hl').
    repeat split; try congruence.
    + rewrite Ht', Ht, <- app_assoc. reflexivity.
    + rewrite Hs', Hs, <- app_assoc. unfold due. simpl.
      destruct (_ mod _ =? 0)%Z; reflexivity.
    + rewrite Hl', Hl. simpl. destruct (Args.lr_scheduler args); lia.
Qed.

(** The optimiser steps of the loop, epoch by epoch. *)
Lemma train_val_test_loop_stepped epochs :
  forall (s s' : St),
    for_each W (train_val_test_epoch W args) epochs tt s = Ok (tt, s') ->
    wf W args s ->
    map fst (view stepped s') =
      map fst (view stepped s) ++
        concat (map (replicate (length (train_loader W (dataloader s)))) epochs).
Proof.
  induction epochs as [|e rest IH]; intros s s' H Hwf; simpl in H.
  - run H. simpl. rewrite app_nil_r. reflexivity.
  - apply bind_ok in H as ([] & s1 & He & H).
    assert (Hwf1 : wf W args s1) by (eapply train_val_test_epoch_wf; eauto).
    destruct (wf_opt _ _ _ Hwf) as [lr Hlr].
    apply train_val_test_epoch_inv in He as (Hd & _ & _ & _ & _ & _ & Hst).
    rewrite (IH _ _ H Hwf1), (Hst lr Hlr), Hd. simpl.
    rewrite map_app, <- app_assoc. f_equal. f_equal.
    clear. induction (length _); simpl; congruence.
Qed.

Lemma finish_inv (s : St) u s' :
  finish W args s = Ok (u, s') ->
  view saved s' = view saved s /\ view tested s' = view tested s /\
  view stepped s' = view stepped s /\ view scheduled s' = view scheduled s /\
  best_test_accuracy s' = best_test_accuracy s /\ best_test_epoch s' = best_test_epoch s.
Proof.
  intros H. unfold finish in H. run H.
  all: unfold view; simpl; rewrite ?omap_app; simpl; rewrite ?app_nil_r; auto 10.
Qed.

Lemma finish_returns (s : St) : wf W args s -> returns (finish W args) s.
Proof.
  intros Hwf. unfold finish. apply returns_bind.
  - apply returns_when. intros Ht. destruct (wf_writer _ _ _ Hwf Ht) as [w Hw].
    apply returns_bind.
    + apply returns_when. intros Hf.
      destruct (wf_logger _ _ _ Hwf Hf) as (lg & Hlg & _ & [e He] & [x Hx]).
      eapply returns_attr; [exact Hlg|]. rewrite He, Hx. simpl.
      apply returns_bind; [eapply returns_run; reflexivity|]. intros ? ? Hm. run Hm.
      eapply returns_attr; [exact Hw|]. eapply returns_run; reflexivity.
    + intros u1 s1 Hm. eapply returns_attr with (a := w).
      * run Hm; simpl; exact Hw.
      * eapply returns_run; reflexivity.
  - intros u s1 Hm.
    assert (Hlog : logger s1 = logger s) by (run Hm; reflexivity).
    apply returns_bind.
    + apply returns_when. intros Hf.
      destruct (wf_logger _ _ _ Hwf Hf) as (lg & Hlg & _).
      eapply returns_attr; [rewrite Hlog; exact Hlg|]. eapply returns_run; reflexivity.
    + intros. eapply returns_run; reflexivity.
Qed.

(** C9.  A run of [train_val_test] from a well-formed trainer returns, and
    the checkpoints it has written are those of the epochs of
    [1 .. epochs] that the interval divides, in order, and no others; with an
    interval of 5 and 12 epochs these are the epochs 5 and 10. *)
Theorem checkpoints_at_multiples_of_interval (s : St) :
  wf W args (set_iter (Some 0%Z) s) ->
  exists s',
    train_val_test W args s = Ok (tt, s') /\
    view saved s' = view saved s ++ due args (epoch_range args) /\
    (forall N, N ∈ due args (epoch_range args) <->
               (1 <= N <= Args.epochs args)%Z /\
               (Args.checkpoint_save_interval args | N)%Z) /\
    (Args.checkpoint_save_interval args = 5%Z -> Args.epochs args = 12%Z ->
     due args (epoch_range args) = [5; 10]%Z).
Proof.
  intros Hwf.
  destruct (train_val_test_loop_returns W args (epoch_range args) _ Hwf)
    as (s1 & Hloop & Hwf1).
  destruct (finish_returns s1 Hwf1) as ([] & s' & Hfin).
  exists s'. split; [|split; [|split]].
  - unfold train_val_test, bind, modify. rewrite Hloop. exact Hfin.
  - apply train_val_test_loop_inv in Hloop as (_ & _ & _ & _ & Hs & _).
    apply finish_inv in Hfin as (Hs' & _). rewrite Hs', Hs. reflexivity.
  - intros N. unfold due, epoch_range.
    rewrite list_elem_of_In, filter_In, <- list_elem_of_In, elem_of_seqZ, Z.eqb_eq.
    rewrite <- Z.mod_divide by apply (wf_save_interval _ _ _ Hwf).
    split; intros [H1 H2]; (split; [lia|exact H2]).
  - intros Hc He. unfold due, epoch_range. rewrite Hc, He. reflexivity.
Qed.

(** One epoch under the step-wise schedule alone. *)
Lemma train_val_test_epoch_rates epoch u (s : St) u' s' lr k :
  train_val_test_epoch W args epoch u s = Ok (u', s') ->
  Args.lr_reducer args = false -> Args.lr_scheduler args = true ->
  opt s = Some lr -> lr_scheduler s = Some k ->
  opt s' = Some (multistep_lr args (k + 1) lr) /\
  lr_scheduler s' = Some (k + 1)%Z /\
  view scheduled s' = view scheduled s ++ [multistep_lr args (k + 1) lr].
Proof.
  intros H Hred Hsched Hlr Hk. unfold train_val_test_epoch in H.
  apply bind_ok in H as (u1 & s1 & Htv & H).
  apply bind_ok in H as ([loss acc] & s2 & Hev & H).
  pose proof (train_val_frame W args _ _ _ _ Htv) as Ftv.
  pose proof (train_val_keeps_opt W args epoch Hred _ _ _ Htv) as Fopt.
  pose proof (evaluate_frame W args _ _ _ _ _ _ _ Hev) as Fev.
  unfold keeps, around_training in Ftv. unfold keeps, around_evaluation in Fev.
  unfold keeps in Fopt. simplify_eq. clear Htv Hev.
  unfold lr_scheduler_step, save_checkpoint in H. rewrite Hsched in H. run H.
  all: unfold view in *; simpl in *; rewrite ?omap_app; simpl; rewrite ?app_nil_r.
  all: repeat split; congruence.
Qed.

Lemma train_val_test_loop_rates epochs :
  forall (s s' : St) lr k,
    for_each W (train_val_test_epoch W args) epochs tt s = Ok (tt, s') ->
    Args.lr_reducer args = false -> Args.lr_scheduler args = true ->
    opt s = Some lr -> lr_scheduler s = Some k ->
    view scheduled s' = view scheduled s ++ rates_after args k lr epochs /\
    view stepped s' =
      view stepped s ++
        concat (map (replicate (length (train_loader W (dataloader s))))
                  (rates_during args k lr epochs)).
Proof.
  induction epochs as [|e rest IH]; intros s s' lr k H Hred Hsched Hlr Hk; simpl in H.
  - run H. simpl. rewrite !app_nil_r. auto.
  - apply bind_ok in H as ([] & s1 & He & H).
    pose proof (train_val_test_epoch_rates _ _ _ _ _ _ _ He Hred Hsched Hlr Hk)
      as (Hlr1 & Hk1 & Hsc1).
    apply train_val_test_epoch_inv in He as (Hd & _ & _ & _ & _ & _ & Hst).
    destruct (IH _ _ _ _ H Hred Hsched Hlr1 Hk1) as [Hsc Hstep].
    split.
    + rewrite Hsc, Hsc1, <- app_assoc. reflexivity.
    + rewrite Hstep, (Hst lr Hlr), Hd, <- app_assoc. reflexivity.
Qed.

(** C5, as amended.  Milestones [3, 6], a factor of 0.1 and a rate of 0.1 at
    the start: every optimiser step of the epochs 1 to 7 is taken at the rate
    of 0.1, 0.1, 0.1, 0.01, 0.01, 0.01, 0.001 of its epoch, and the rates that
    the schedule sets when it is advanced at the end of these epochs are 0.1,
    0.1, 0.01, 0.01, 0.01, 0.001, 0.001: a milestone takes effect in the epoch
    after the one at whose end it is reached. *)
Theorem step_schedule_rates (s : St) :
  wf W args s ->
  Args.lr_schedule args = [3; 6]%Z -> Args.lr_decay_factor args = 1 # 10 ->
  Args.lr_scheduler args = true -> Args.lr_reducer args = false ->
  opt s = Some (1 # 10) -> lr_scheduler s = Some 0%Z ->
  exists s',
    for_each W (train_val_test_epoch W args) [1; 2; 3; 4; 5; 6; 7]%Z tt s = Ok (tt, s') /\
    view stepped s' =
      view stepped s ++
        concat (map (replicate (length (train_loader W (dataloader s))))
                  [(1, 1 # 10); (2, 1 # 10); (3, 1 # 10); (4, 1 # 100);
                   (5, 1 # 100); (6, 1 # 100); (7, 1 # 1000)]%Z) /\
    view scheduled s' =
      view scheduled s ++
        [1 # 10; 1 # 10; 1 # 100; 1 # 100; 1 # 100; 1 # 1000; 1 # 1000].
Proof.
  intros Hwf Hms Hgamma Hsched Hred Hlr Hk.
  destruct (train_val_test_loop_returns W args [1; 2; 3; 4; 5; 6; 7]%Z s Hwf)
    as (s' & Hloop & _).
  exists s'. split; [exact Hloop|].
  destruct (train_val_test_loop_rates _ _ _ _ _ Hloop Hred Hsched Hlr Hk) as [Hsc Hst].
  rewrite Hsc, Hst. unfold rates_after, rates_during, multistep_lr.
  rewrite Hms, Hgamma. split; reflexivity.
Qed.

(** Once label generation is stopped an epoch of [ssl_train_val_test] is an
    epoch of [train_val_test] that hands the predictions on. *)
Lemma ssl_epoch_frozen epoch predictions (s : St) :
  stop_label_generation (dataloader s) = true ->
  ssl_epoch W args epoch predictions s =
    bind (train_val_test_epoch W args epoch tt) (fun _ => ret predictions) s.
Proof.
  intros Hstop. unfold ssl_epoch, train_val_test_epoch.
  rewrite bind_get_l, Hstop. simpl. rewrite bind_ret_l.
  rewrite bind_assoc. apply bind_cong. intros u1 s1 Htv.
  rewrite bind_assoc. apply bind_cong. intros r s2 Hev.
  pose proof (train_val_frame W args _ _ _ _ Htv) as Ftv.
  pose proof (evaluate_frame W args _ _ _ _ _ _ _ Hev) as Fev.
  unfold keeps, around_training in Ftv. unfold keeps, around_evaluation in Fev.
  simplify_eq.
  rewrite bind_get_l.
  replace (stop_label_generation (dataloader s2)) with true by congruence. simpl.
  rewrite bind_ret_l.
  rewrite bind_assoc. apply bind_cong. intros u3 s3 _.
  rewrite bind_assoc. apply bind_cong. intros u4 s4 _.
  reflexivity.
Qed.

Lemma ssl_loop_frozen epochs :
  forall predictions (s : St),
    stop_label_generation (dataloader s) = true ->
    for_each W (ssl_epoch W args) epochs predictions s =
      bind (for_each W (train_val_test_epoch W args) epochs tt)
           (fun _ => ret predictions) s.
Proof.
  induction epochs as [|e rest IH]; intros predictions s Hstop; simpl.
  - reflexivity.
  - rewrite bind_assoc.
    transitivity
      (bind (bind (train_val_test_epoch W args e tt) (fun _ => ret predictions))
            (fun a' => for_each W (ssl_epoch W args) rest a') s).
    { unfold bind at 1 3. rewrite ssl_epoch_frozen by exact Hstop. reflexivity. }
    rewrite bind_assoc. apply bind_cong. intros [] s1 He. rewrite bind_ret_l.
    apply IH. apply train_val_test_epoch_inv in He as (Hd & _). congruence.
Qed.

(** C2.  From an epoch at whose start the loader's flag is set, the remaining
    epochs of [ssl_train_val_test] all run: they never call [ssl_init_epoch]
    and never generate labels, the pair of predictions comes out as it went
    in and the flag stays set, while every epoch trains on every batch,
    reports on the test split, advances the schedule when one is configured
    and writes the checkpoints that are due. *)
Theorem frozen_labels_stay_frozen epochs predictions (s : St) :
  stop_label_generation (dataloader s) = true ->
  wf W args s ->
  exists s',
    for_each W (ssl_epoch W args) epochs predictions s = Ok (predictions, s') /\
    stop_label_generation (dataloader s') = true /\
    view relabelled s' = view relabelled s /\
    view generated s' = view generated s /\
    map fst (view stepped s') =
      map fst (view stepped s) ++
        concat (map (replicate (length (train_loader W (dataloader s)))) epochs) /\
    view tested s' = view tested s ++ epochs /\
    length (view scheduled s') =
      (length (view scheduled s)
       + if Args.lr_scheduler args then length epochs else 0)%nat /\
    view saved s' = view saved s ++ due args epochs.
Proof.
  intros Hstop Hwf.
  destruct (train_val_test_loop_returns W args epochs s Hwf) as (s' & Hloop & _).
  exists s'. split.
  { rewrite ssl_loop_frozen by exact Hstop. unfold bind. rewrite Hloop. reflexivity. }
  pose proof (train_val_test_loop_stepped _ _ _ Hloop Hwf) as Hst.
  apply train_val_test_loop_inv in Hloop as (Hd & Hr & Hg & Ht & Hs & Hl).
  repeat split; try assumption. congruence.
Qed.

End Drivers.

(** ** The statements at concrete inputs *)

Lemma toy_logger_ok a stream :
  Args.eval a = false -> Args.optimiser a = "sgd" \/ Args.optimiser a = "adam" ->
  Args.filelogger a = true -> logger_ok (toy_run a stream).
Proof.
  intros He Ho Hf. exists empty_logger. split.
  - unfold toy_run, toy_trainer, init. rewrite He. simpl.
    destruct Ho as [-> | ->]; simpl; rewrite Hf; reflexivity.
  - split; [|split; eexists; reflexivity].
    intros k Hk. unfold series_keys in Hk.
    repeat (apply elem_of_cons in Hk as [->|Hk]; [eexists; reflexivity|]).
    apply elem_of_nil in Hk. destruct Hk.
Qed.

Lemma toy_run_dataloader a stream : dataloader (toy_run a stream) = toy_loader stream.
Proof.
  unfold toy_run, toy_trainer, init.
  repeat case_match; simplify_eq; reflexivity.
Qed.

Lemma toy_wf a stream :
  Args.eval a = false -> Args.optimiser a = "sgd" \/ Args.optimiser a = "adam" ->
  stream <> [] ->
  Args.log_interval a <> 0%Z -> Args.checkpoint_save_interval a <> 0%Z ->
  wf toy a (toy_run a stream).
Proof.
  intros He Ho Hs Hl Hc.
  split; try assumption; try (rewrite toy_run_dataloader; exact Hs).
  all: try (intros Hflag; apply toy_logger_ok; assumption).
  all: try intros Hflag.
  all: unfold toy_run, toy_trainer, init; rewrite He.
  all: destruct Ho as [Ho|Ho]; rewrite Ho; simpl; try rewrite Hflag; eauto.
Qed.

Lemma toy_ready a stream :
  Args.eval a = false -> Args.optimiser a = "sgd" \/ Args.optimiser a = "adam" ->
  stream <> [] ->
  Args.log_interval a <> 0%Z -> Args.checkpoint_save_interval a <> 0%Z ->
  ready toy a (toy_run a stream).
Proof. intros. apply wf_ready, toy_wf; assumption. Qed.

Lemma toy_wf_frozen a stream :
  wf toy a (toy_run a stream) ->
  wf toy a (set_stop_label_generation true (toy_run a stream)).
Proof. intros []. split; simpl; auto. Qed.

(** C1 at a cap of 1 over three batches: two batches are taken. *)
Lemma evaluate_consumes_one_more_than_cap_witness :
  (0 < 1)%Z /\ (Z.to_nat 1 + 1 <= length toy_stream)%nat /\
  Z.of_nat (length toy_stream
            - length (eval_loop toy tt (Some 1%Z) 0 toy_stream tally0).2) = 2%Z.
Proof.
  assert (H1 : (0 < 1)%Z) by lia.
  assert (H2 : (Z.to_nat 1 + 1 <= length toy_stream)%nat) by (simpl; lia).
  split; [exact H1|]. split; [exact H2|].
  pose proof (evaluate_consumes_one_more_than_cap toy tt 1 toy_stream tally0 H1 H2) as H.
  simpl in H. destruct H as (_ & _ & H). exact H.
Defined.

(** C6 at a trainer without batches. *)
Lemma evaluate_empty_stream_raises_witness :
  loader_of toy Val (dataloader (toy_run toy_args [])) = [] /\
  evaluate toy toy_args Val None false (Some 4%Z) (toy_run toy_args [])
    = Raise ZeroDivisionError.
Proof.
  assert (H : loader_of toy Val (dataloader (toy_run toy_args [])) = [])
    by reflexivity.
  split; [exact H|].
  apply (evaluate_empty_stream_raises toy toy_args Val None false (Some 4%Z)
           (toy_run toy_args []) H).
Defined.

(** C8 at a stream of the said shape. *)
Lemma evaluate_two_batches_accuracy_witness :
  exists loss q s',
    evaluate toy toy_args Val None false None (toy_run toy_args toy_stream_8)
      = Ok ((loss, Fin q), s') /\ (q == 75)%Q /\
    n_examples (eval_loop toy tt None 0 toy_stream_8 tally0).1 = 8%Z.
Proof.
  pose proof (evaluate_two_batches_accuracy toy toy_args Val None false
                (toy_run toy_args toy_stream_8)
                [toy_row 0 0 1; toy_row 1 1 2; toy_row 2 2 3; toy_row 0 0 4]
                [toy_row 0 0 5; toy_row 1 1 6; toy_row 0 1 7; toy_row 1 2 8]
                eq_refl eq_refl eq_refl eq_refl eq_refl) as H.
  cbv zeta in H. destruct H as (Hn & _ & Hacc & Hret).
  destruct Hret as ([loss acc] & s' & Hev).
  { apply toy_ready; [reflexivity|left; reflexivity|discriminate|discriminate|discriminate]. }
  { left. reflexivity. }
  destruct (Hacc _ _ _ Hev) as (q & -> & Hq).
  exists loss, q, s'. split; [exact Hev|]. split; [exact Hq|exact Hn].
Defined.

(** C10 at the evaluation-only entry point. *)
Lemma evaluate_without_epoch_resets_best_epoch_witness :
  exists r s',
    evaluate toy toy_args_eval Test None true None (toy_trainer toy_args_eval toy_stream)
      = Ok (r, s') /\
    best_test_epoch s' = Some 0%Z.
Proof.
  apply (evaluate_without_epoch_resets_best_epoch toy toy_args_eval None
           (toy_trainer toy_args_eval toy_stream)).
  - split; intros; discriminate.
  - discriminate.
Defined.

(** The runs that the remaining statements are tried on. *)
Lemma toy_silent_test_pass :
  exists loss acc s',
    evaluate toy toy_args Test (Some 3%Z) false None (toy_run toy_args toy_stream)
      = Ok ((loss, acc), s') /\
    best_test_epoch s' = Some 3%Z /\ best_test_accuracy s' = Fin (300 # 4).
Proof.
  destruct (evaluate toy toy_args Test (Some 3%Z) false None (toy_run toy_args toy_stream))
    as [[[loss acc] s']|] eqn:H; vm_compute in H; [|discriminate].
  exists loss, acc, s'. split; [reflexivity|]. simplify_eq. split; reflexivity.
Qed.

Lemma toy_verbose_test_pass :
  exists loss acc s',
    evaluate toy toy_args Test (Some 3%Z) true None (toy_run toy_args toy_stream)
      = Ok ((loss, acc), s').
Proof.
  destruct (evaluate toy toy_args Test (Some 3%Z) true None (toy_run toy_args toy_stream))
    as [[[loss acc] s']|] eqn:H; vm_compute in H; [|discriminate].
  exists loss, acc, s'. reflexivity.
Qed.

(** C4 refuted: a pass over the test split without [verbose] moves the best
    record from epoch 0 and accuracy 0 to epoch 3 and accuracy 75. *)
Lemma silent_test_pass_updates_best_record :
  exists loss acc s',
    evaluate toy toy_args Test (Some 3%Z) false None (toy_run toy_args toy_stream)
      = Ok ((loss, acc), s') /\
    best_test_epoch (toy_run toy_args toy_stream) = Some 0%Z /\
    best_test_epoch s' = Some 3%Z /\
    best_test_accuracy (toy_run toy_args toy_stream) = Fin 0 /\
    best_test_accuracy s' = Fin (300 # 4).
Proof.
  destruct toy_silent_test_pass as (loss & acc & s' & H & He & Ha).
  exists loss, acc, s'. repeat split; try assumption; reflexivity.
Qed.

(** C4, as amended, at the same pass. *)
Lemma evaluate_silent_best_record_witness :
  exists loss acc s',
    evaluate toy toy_args Test (Some 3%Z) false None (toy_run toy_args toy_stream)
      = Ok ((loss, acc), s') /\
    if xge acc (best_test_accuracy (toy_run toy_args toy_stream))
    then best_test_accuracy s' = acc /\ best_test_epoch s' = Some 3%Z
    else best_test_accuracy s' = best_test_accuracy (toy_run toy_args toy_stream) /\
         best_test_epoch s' = best_test_epoch (toy_run toy_args toy_stream).
Proof.
  destruct toy_silent_test_pass as (loss & acc & s' & H & _).
  exists loss, acc, s'. split; [exact H|].
  exact (evaluate_silent_best_record toy toy_args Test (Some 3%Z) None
           (toy_run toy_args toy_stream) loss acc s' H).
Defined.

(** C3 at a pass of epoch 3. *)
Lemma best_record_monotone_witness :
  exists loss acc s',
    evaluate toy toy_args Test (Some 3%Z) true None (toy_run toy_args toy_stream)
      = Ok ((loss, acc), s') /\
    best_test_accuracy (toy_run toy_args toy_stream) <> NaN /\
    xge (best_test_accuracy s') (best_test_accuracy (toy_run toy_args toy_stream)) = true.
Proof.
  destruct toy_verbose_test_pass as (loss & acc & s' & H).
  assert (Hn : best_test_accuracy (toy_run toy_args toy_stream) <> NaN) by discriminate.
  exists loss, acc, s'. split; [exact H|]. split; [exact Hn|].
  pose proof (best_record_monotone toy toy_args 3 true None
                (toy_run toy_args toy_stream) loss acc s' H Hn) as (_ & _ & _ & Hm & _).
  exact Hm.
Defined.

(** C7 at a pass over the three batches of the toy stream. *)
Lemma generate_labels_parallel_witness :
  exists indices labels s',
    generate_labels_for_ssl toy toy_args 1 (Some 4%Z) true (toy_run toy_args toy_stream)
      = Ok ((indices, labels), s') /\
    NoDup (map ex_index (concat toy_stream)) /\
    length indices = length labels /\
    indices = [10; 11; 12; 13]%Z /\
    NoDup indices.
Proof.
  pose proof (generate_labels_parallel toy toy_args 1 (Some 4%Z) true
                (toy_run toy_args toy_stream)) as H.
  cbv zeta in H. destruct H as [Hinv Hret].
  destruct Hret as ([indices labels] & s' & Hrun).
  { apply toy_ready; [reflexivity|left; reflexivity|discriminate|discriminate|discriminate]. }
  { discriminate. }
  destruct (Hinv _ _ _ Hrun) as (Hlen & Hidx & _ & Hnd).
  assert (Hrows : NoDup (map ex_index (concat toy_stream))).
  { apply (bool_decide_unpack _). vm_compute. exact I. }
  exists indices, labels, s'. split; [exact Hrun|]. split; [exact Hrows|].
  split; [exact Hlen|]. split; [exact Hidx|]. apply Hnd. exact Hrows.
Defined.

(** C9 at a run of twelve epochs with an interval of five. *)
Lemma checkpoints_at_multiples_of_interval_witness :
  exists s',
    train_val_test toy toy_args_12 (toy_trainer toy_args_12 toy_stream) = Ok (tt, s') /\
    view saved s' = [5; 10]%Z.
Proof.
  destruct (checkpoints_at_multiples_of_interval toy toy_args_12
              (toy_trainer toy_args_12 toy_stream))
    as (s' & Hrun & Hsaved & _ & Hdue).
  { apply (toy_wf toy_args_12 toy_stream);
      [reflexivity|right; reflexivity|discriminate|discriminate|discriminate]. }
  exists s'. split; [exact Hrun|].
  rewrite Hsaved, (Hdue eq_refl eq_refl). reflexivity.
Defined.

(** C5 refuted: in a run configured as the claim says, the first optimiser
    step of epoch 3 (three batches an epoch) is taken at 0.1, not at 0.01. *)
Lemma third_epoch_trains_at_initial_rate :
  exists s',
    for_each toy (train_val_test_epoch toy toy_args) [1; 2; 3; 4; 5; 6; 7]%Z tt
      (toy_run toy_args toy_stream) = Ok (tt, s') /\
    view stepped s' !! 6%nat = Some (3%Z, 1 # 10) /\
    ~ (1 # 10 == 1 # 100)%Q.
Proof.
  destruct (for_each toy (train_val_test_epoch toy toy_args) [1; 2; 3; 4; 5; 6; 7]%Z tt
              (toy_run toy_args toy_stream)) as [[[] s']|] eqn:H;
    vm_compute in H; [|discriminate].
  exists s'. split; [reflexivity|]. simplify_eq. split; [reflexivity|].
  intros Hq. discriminate Hq.
Qed.

(** C5, as amended, at the same run. *)
Lemma step_schedule_rates_witness :
  exists s',
    for_each toy (train_val_test_epoch toy toy_args) [1; 2; 3; 4; 5; 6; 7]%Z tt
      (toy_run toy_args toy_stream) = Ok (tt, s') /\
    view scheduled s' = [1 # 10; 1 # 10; 1 # 100; 1 # 100; 1 # 100; 1 # 1000; 1 # 1000].
Proof.
  destruct (step_schedule_rates toy toy_args (toy_run toy_args toy_stream))
    as (s' & Hrun & _ & Hsched); try reflexivity.
  { apply toy_wf; [reflexivity|left; reflexivity|discriminate|discriminate|discriminate]. }
  exists s'. split; [exact Hrun|]. rewrite Hsched. reflexivity.
Defined.

(** C2 at two epochs of a run whose loader has stopped label generation. *)
Lemma frozen_labels_stay_frozen_witness :
  exists s',
    for_each toy (ssl_epoch toy toy_args) [3; 4]%Z ([10]%Z, [1]%Z)
      (set_stop_label_generation true (toy_run toy_args toy_stream))
      = Ok (([10]%Z, [1]%Z), s') /\
    view relabelled s' = [] /\ view generated s' = [] /\ view tested s' = [3; 4]%Z.
Proof.
  destruct (frozen_labels_stay_frozen toy toy_args [3; 4]%Z ([10]%Z, [1]%Z)
              (set_stop_label_generation true (toy_run toy_args toy_stream)))
    as (s' & Hrun & _ & Hr & Hg & _ & Ht & _).
  { reflexivity. }
  { apply toy_wf_frozen, toy_wf;
      [reflexivity|left; reflexivity|discriminate|discriminate|discriminate]. }
  exists s'. split; [exact Hrun|]. rewrite Hr, Hg, Ht. repeat split; reflexivity.
Defined.
